(** * legal_citation_parser/utils.py: aggregation and persistence helpers

    A shallow embedding of [check_url], [canlii_api_call],
    [create_citation_database] and [insert_data], together with the
    semantics of the few library calls they rely on ([requests.get],
    [response.json], [os.getenv], [input], [sys.exit], and the SQL
    statements run through [sqlite3]). *)

From Stdlib Require Import String Ascii ZArith List Bool Lia.
From stdpp Require Import base option list gmap strings.

Local Open Scope string_scope.
Local Open Scope list_scope.

(** ** Python values and exceptions *)

Module Py.

(** The values that occur as fields of a case record: [None] or a [str].
    A [str] is kept as its UTF-8 bytes; UTF-8 is self-synchronising, so
    searching for the (valid) delimiter byte string finds exactly the
    code-point matches. *)
Inductive pyval : Type :=
  | PyNone
  | PyStr (s : string).

#[export] Instance pyval_eq_dec : EqDecision pyval.
Proof. solve_decision. Defined.

(** Truthiness as tested by [if x:]. *)
Definition truthy (v : pyval) : bool :=
  match v with
  | PyNone => false
  | PyStr EmptyString => false
  | PyStr _ => true
  end.

(** [str(v)], as used by f-string interpolation [{v}]. *)
Definition format (v : pyval) : string :=
  match v with
  | PyNone => "None"
  | PyStr s => s
  end.

(** Transport-level failures of [requests.get]; each is raised as a
    subclass of [requests.RequestException]. *)
Inductive transport_failure : Type :=
  | Timeout
  | DnsFailure
  | ConnectionRefused
  | TlsError.

Inductive exn : Type :=
  | KeyError (key : string)
  | TypeError
  | ValueError
  | EOFError
  | RequestException (f : transport_failure)
  | JSONDecodeError
  | OperationalError (msg : string)
  | SystemExit (code : option Z)
  | OtherError (name : string).

(** [isinstance(e, requests.RequestException)].  Since requests 2.27 the
    [JSONDecodeError] raised by [response.json()] is one as well. *)
Definition is_request_exception (e : exn) : bool :=
  match e with
  | RequestException _ | JSONDecodeError => true
  | _ => false
  end.

(** Outcome of a call: a returned value or a raised exception. *)
Inductive result (A : Type) : Type :=
  | Return (a : A)
  | Raise (e : exn).
Arguments Return {A} a.
Arguments Raise {A} e.

Definition raised {A} (r : result A) : Prop := ∃ e, r = Raise e.
Definition returned {A} (r : result A) : Prop := ∃ a, r = Return a.

(** Exit status of the interpreter when the outcome reaches top level:
    [SystemExit] with no argument (or [None]) is status 0, an integer
    argument is that status, and any other uncaught exception prints a
    traceback and gives status 1. *)
Definition exit_status {A} (r : result A) : Z :=
  match r with
  | Return _ => 0
  | Raise (SystemExit None) => 0
  | Raise (SystemExit (Some n)) => n
  | Raise _ => 1
  end.

(** *** [str.split(sep)] *)

(** Scan left to right; [skip] counts the bytes of a separator match still
    to be stepped over, [cur] is the token collected so far. *)
Fixpoint split_scan (sep : string) (skip : nat) (cur s : string) : list string :=
  match s with
  | EmptyString => [cur]
  | String c s' =>
      match skip with
      | S k => split_scan sep k cur s'
      | O =>
          if String.prefix sep s
          then cur :: split_scan sep (String.length sep - 1) EmptyString s'
          else split_scan sep 0 (cur +:+ String c EmptyString) s'
      end
  end.

(** [s.split(sep)]: [ValueError] on an empty separator. *)
Definition split (s sep : string) : result (list string) :=
  match sep with
  | EmptyString => Raise ValueError
  | _ => Return (split_scan sep 0 EmptyString s)
  end.

End Py.
Import Py.

(** ** State and exceptions

    A computation over a state [S] that either returns or raises; the state
    reached is kept in both cases (a raise does not undo what was done). *)

Module Eff.

Definition M (S A : Type) : Type := S → result A * S.

Definition ret {S A} (a : A) : M S A := λ s, (Return a, s).

Definition bind {S A B} (m : M S A) (k : A → M S B) : M S B :=
  λ s, match m s with
       | (Return a, s') => k a s'
       | (Raise e, s') => (Raise e, s')
       end.

Definition lift {S A} (r : result A) : M S A := λ s, (r, s).

Definition modify {S} (f : S → S) : M S unit := λ s, (Return tt, f s).

(** [for x in xs: body(x)] *)
Fixpoint for_each {S A} (xs : list A) (body : A → M S unit) : M S unit :=
  match xs with
  | [] => ret tt
  | x :: xs' => bind (body x) (λ _, for_each xs' body)
  end.

End Eff.

Notation "'let*' x ':=' c1 'in' c2" := (Eff.bind c1 (λ x, c2))
  (at level 10, x name, c1 at level 100, c2 at level 200,
   format "'[v' 'let*'  x  ':='  c1  'in' '/' c2 ']'").

(** ** The relational store behind [sqlite3] *)

Module Sql.

(** A row holds one value per column of its table, in column order. *)
Definition row : Type := list pyval.

Record table : Type := Table {
  tbl_columns : list string;
  tbl_key : option string;  (* the column declared PRIMARY KEY *)
  tbl_rows : list row       (* in rowid order *)
}.

(** The content of a database file: its tables by name. *)
Abbreviation database := (gmap string table).

(** Position of a column in a column list. *)
Fixpoint column_index (c : string) (cols : list string) : option nat :=
  match cols with
  | [] => None
  | c' :: cols' => if bool_decide (c = c') then Some 0 else S <$> column_index c cols'
  end.

Definition row_get (cols : list string) (c : string) (r : row) : pyval :=
  match column_index c cols with
  | Some i => match r !! i with Some v => v | None => PyNone end
  | None => PyNone
  end.

(** Value of the key column of [r]; [NULL] when the table declares none. *)
Definition key_value (cols : list string) (key : option string) (r : row) : pyval :=
  match key with
  | Some k => row_get cols k r
  | None => PyNone
  end.

(** Uniqueness compares with [=] under BINARY collation, and [NULL] is
    distinct from everything, itself included: a [TEXT PRIMARY KEY] column
    of an ordinary rowid table accepts any number of [NULL]s. *)
Definition same_key (a b : pyval) : bool :=
  match a, b with
  | PyStr x, PyStr y => bool_decide (x = y)
  | _, _ => false
  end.

Definition conflicts (t : table) (new old : row) : bool :=
  same_key (key_value (tbl_columns t) (tbl_key t) new)
           (key_value (tbl_columns t) (tbl_key t) old).

(** Value given to a column by [INSERT INTO t (cols) VALUES (vals)]. *)
Fixpoint assigned (c : string) (cols : list string) (vals : list pyval) : pyval :=
  match cols, vals with
  | c' :: cols', v :: vals' => if bool_decide (c = c') then v else assigned c cols' vals'
  | _, _ => PyNone
  end.

(** The first of [cols] that the table does not have. *)
Definition unknown_column (t : table) (cols : list string) : option string :=
  List.find (λ c, negb (bool_decide (c ∈ tbl_columns t))) cols.

(** The row an [INSERT] builds: named columns take their value, the others
    are [NULL]. *)
Definition bind_columns (t : table) (cols : list string) (vals : list pyval) : row :=
  map (λ c, assigned c cols vals) (tbl_columns t).

(** [DO UPDATE SET c = excluded.c] for each [c] of [set]. *)
Fixpoint update_row (cols set : list string) (old excluded : row) : row :=
  match cols, old, excluded with
  | c :: cols', o :: old', e :: excluded' =>
      (if bool_decide (c ∈ set) then e else o) :: update_row cols' set old' excluded'
  | _, _, _ => old
  end.

Inductive on_conflict : Type :=
  | OrIgnore                                      (* INSERT OR IGNORE *)
  | DoUpdate (target : string) (set : list string). (* ON CONFLICT(target) DO UPDATE SET .. *)

Inductive stmt : Type :=
  | CreateTableIfNotExists (name : string) (cols : list string) (key : option string)
  | Insert (oc : on_conflict) (name : string) (cols : list string) (vals : list pyval).

Definition with_rows (t : table) (rows : list row) : table :=
  {| tbl_columns := tbl_columns t; tbl_key := tbl_key t; tbl_rows := rows |}.

Definition insert_into (oc : on_conflict) (t : table) (new : row) : result table :=
  if existsb (conflicts t new) (tbl_rows t)
  then match oc with
       | OrIgnore => Return t
       | DoUpdate _ set =>
           Return (with_rows t
             (map (λ old, if conflicts t new old
                          then update_row (tbl_columns t) set old new
                          else old) (tbl_rows t)))
       end
  else Return (with_rows t (tbl_rows t ++ [new])).

(** The conflict target of an upsert has to be a declared key. *)
Definition target_ok (oc : on_conflict) (t : table) : bool :=
  match oc with
  | OrIgnore => true
  | DoUpdate target _ => bool_decide (tbl_key t = Some target)
  end.

(** The columns an upsert assigns from [excluded]. *)
Definition set_of (oc : on_conflict) : list string :=
  match oc with
  | OrIgnore => []
  | DoUpdate _ set => set
  end.

(** One statement against a database.  A statement that fails changes
    nothing.  Foreign keys are declared but not enforced ([PRAGMA
    foreign_keys] is off unless switched on, and the code never does).
    An [INSERT] is checked in SQLite's order: the columns it names, then
    the conflict target, then the columns of the [SET] list. *)
Definition exec (st : stmt) (db : database) : result database :=
  match st with
  | CreateTableIfNotExists name cols key =>
      match db !! name with
      | Some _ => Return db
      | None => Return (<[name := Table cols key []]> db)
      end
  | Insert oc name cols vals =>
      match db !! name with
      | None => Raise (OperationalError ("no such table: " +:+ name))
      | Some t =>
          match unknown_column t cols with
          | Some c =>
              Raise (OperationalError ("table " +:+ name +:+ " has no column named " +:+ c))
          | None =>
              if negb (target_ok oc t)
              then Raise (OperationalError "ON CONFLICT clause does not match any PRIMARY KEY or UNIQUE constraint")
              else match unknown_column t (set_of oc) with
                   | Some c => Raise (OperationalError ("no such column: excluded." +:+ c))
                   | None =>
                       match insert_into oc t (bind_columns t cols vals) with
                       | Return t' => Return (<[name := t']> db)
                       | Raise e => Raise e
                       end
                   end
          end
      end
  end.

(** A connection: what is durably in the file, what the connection sees
    (the file plus its uncommitted statements), and whether it is open. *)
Record conn : Type := Conn {
  disk : database;
  view : database;
  is_open : bool
}.

(** [sqlite3.connect('results.db')] on a file holding [db]. *)
Definition connect (db : database) : conn :=
  {| disk := db; view := db; is_open := true |}.

(** [c.execute(..)] *)
Definition execute (st : stmt) : Eff.M conn unit :=
  λ c, match exec st (view c) with
       | Return v => (Return tt, {| disk := disk c; view := v; is_open := is_open c |})
       | Raise e => (Raise e, c)
       end.

(** [conn.commit()] *)
Definition commit : Eff.M conn unit :=
  Eff.modify (λ c, {| disk := view c; view := view c; is_open := is_open c |}).

(** [conn.close()]: what was not committed is rolled back. *)
Definition close : Eff.M conn unit :=
  Eff.modify (λ c, {| disk := disk c; view := disk c; is_open := false |}).

End Sql.
Import Sql.

(** ** The network side: [check_url] and [canlii_api_call] *)

Module Net.

(** A decoded JSON document, as [response.json()] hands it over. Numbers
    are kept as their literal; the code never computes with them. The
    members of an object are the items of the decoded [dict], one per key. *)
#[warnings="-register-all"]
Inductive json : Type :=
  | JNull
  | JBool (b : bool)
  | JNumber (literal : string)
  | JString (s : string)
  | JArray (items : list json)
  | JObject (members : list (string * json)).

(** What came back for a request: the status code and the body decoded as
    JSON, [None] when the body is not well-formed JSON. *)
Record response : Type := Response {
  status_code : Z;
  body : option json
}.

(** What the process can observe of its surroundings: the environment
    after [load_dotenv()], the line [input()] would read ([None] at end of
    input), and the outcome of a GET on each URL (a response, or the
    exception [requests.get] raises). *)
Record env : Type := Env {
  getenv : string → option string;
  stdin_line : option string;
  http_get : string → result response
}.

(** What the process does to its surroundings, in order. *)
Inductive event : Type :=
  | Stdout (line : string)
  | Input
  | Get (url : string).

Definition emit (e : event) : Eff.M (list event) unit :=
  Eff.modify (λ trace, trace ++ [e]).

(** [requests.get(url, timeout=5)] *)
Definition requests_get (E : env) (url : string) : Eff.M (list event) response :=
  let* _ := emit (Get url) in
  Eff.lift (http_get E url).

(** [response.json()] *)
Definition json_of (r : response) : result json :=
  match body r with
  | Some j => Return j
  | None => Raise JSONDecodeError
  end.

Fixpoint member (k : string) (members : list (string * json)) : option json :=
  match members with
  | [] => None
  | (k', v) :: rest => if bool_decide (k = k') then Some v else member k rest
  end.

(** [j[k]] with a string [k]: a [dict] looks the key up, anything else
    decoded from JSON does not take a string subscript. *)
Definition item (j : json) (k : string) : result json :=
  match j with
  | JObject members =>
      match member k members with
      | Some v => Return v
      | None => Raise (KeyError k)
      end
  | _ => Raise TypeError
  end.

(** [input()] *)
Definition input (E : env) : Eff.M (list event) string :=
  let* _ := emit Input in
  match stdin_line E with
  | Some line => Eff.ret line
  | None => Eff.lift (Raise EOFError)
  end.

(** [try: body except requests.RequestException: handler] *)
Definition try_except_request {S A} (body : Eff.M S A) (handler : Eff.M S A) : Eff.M S A :=
  λ s, match body s with
       | (Raise e, s') => if is_request_exception e then handler s' else (Raise e, s')
       | (Return a, s') => (Return a, s')
       end.

End Net.
Import Net.

(** ** The functions of [utils.py] *)

Definition check_url (E : env) (url : string) : Eff.M (list event) pyval :=
  try_except_request
    (let* response := requests_get E url in
     if (status_code response =? 200)%Z
     then Eff.ret (PyStr url)
     else Eff.ret PyNone)
    (Eff.ret PyNone).

(** Lines 58-65 of [canlii_api_call]: the key from the environment, or
    else from the console, exiting on an empty line. *)
Definition resolve_api_key (E : env) : Eff.M (list event) string :=
  match getenv E "CANLII_API_KEY" with
  | None =>
      let* _ := emit (Stdout "Please enter your CanLII API key (or blank input to exit):") in
      let* API_KEY := input E in
      if bool_decide (API_KEY = EmptyString)
      then Eff.lift (Raise (SystemExit None))
      else Eff.ret API_KEY
  | Some API_KEY => Eff.ret API_KEY
  end.

(** The parameters are passed in full: a caller relying on the defaults
    passes [PyNone] for an identifier, ["en"] for [language] and [false] for
    a flag. *)
Definition canlii_api_call (E : env)
    (case_id database_id legislation_id language : pyval)
    (decision_metadata legislation_metadata cases_cited cases_citing
       canlii_database : bool) : Eff.M (list event) (gmap string json) :=
  let* API_KEY := resolve_api_key E in
  let metadata_api_info : gmap string json := ∅ in
  let* metadata_api_info :=
    if decision_metadata then
      let metadata_url :=
        "https://api.canlii.org/v1/caseBrowse/" +:+ format language +:+ "/"
          +:+ format database_id +:+ "/" +:+ format case_id +:+ "/?api_key=" +:+ API_KEY in
      let* response := requests_get E metadata_url in
      let* case_metadata := Eff.lift (json_of response) in
      let* v := Eff.lift (item case_metadata "url") in
      let metadata_api_info := <["short_url" := v]> metadata_api_info in
      let* v := Eff.lift (item case_metadata "language") in
      let metadata_api_info := <["language" := v]> metadata_api_info in
      let* v := Eff.lift (item case_metadata "docketNumber") in
      let metadata_api_info := <["docket_number" := v]> metadata_api_info in
      let* v := Eff.lift (item case_metadata "decisionDate") in
      let metadata_api_info := <["decision_date" := v]> metadata_api_info in
      let* v := Eff.lift (item case_metadata "keywords") in
      let metadata_api_info := <["keywords" := v]> metadata_api_info in
      let* v := Eff.lift (item case_metadata "topics") in
      let metadata_api_info := <["categories" := v]> metadata_api_info in
      Eff.ret metadata_api_info
    else Eff.ret metadata_api_info in
  let* metadata_api_info :=
    if cases_cited then
      let cited_cases_url :=
        "https://api.canlii.org/v1/caseCitator/" +:+ format language +:+ "/"
          +:+ format database_id +:+ "/" +:+ format case_id
          +:+ "/citedCases?api_key=" +:+ API_KEY in
      let* response := requests_get E cited_cases_url in
      let* cited_cases := Eff.lift (json_of response) in
      Eff.ret (<["cited_cases" := cited_cases]> metadata_api_info)
    else Eff.ret metadata_api_info in
  let* metadata_api_info :=
    if cases_citing then
      let citing_cases_url :=
        "https://api.canlii.org/v1/caseCitator/" +:+ format language +:+ "/"
          +:+ format database_id +:+ "/" +:+ format case_id
          +:+ "/citingCases?api_key=" +:+ API_KEY in
      let* response := requests_get E citing_cases_url in
      let* citing_cases := Eff.lift (json_of response) in
      Eff.ret (<["citing_cases" := citing_cases]> metadata_api_info)
    else Eff.ret metadata_api_info in
  let* metadata_api_info :=
    if legislation_metadata then
      let metadata_url :=
        "https://api.canlii.org/v1/legislationBrowse/" +:+ format language +:+ "/"
          +:+ format database_id +:+ "/" +:+ format legislation_id
          +:+ "/?api_key=" +:+ API_KEY in
      let* response := requests_get E metadata_url in
      let* legislation := Eff.lift (json_of response) in
      let* v := Eff.lift (item legislation "databaseId") in
      let metadata_api_info := <["database_id" := v]> metadata_api_info in
      let* v := Eff.lift (item legislation "legislationId") in
      let metadata_api_info := <["legislation_id" := v]> metadata_api_info in
      let* v := Eff.lift (item legislation "title") in
      let metadata_api_info := <["title" := v]> metadata_api_info in
      let* v := Eff.lift (item legislation "type") in
      let metadata_api_info := <["type" := v]> metadata_api_info in
      let* v := Eff.lift (item legislation "citation") in
      let metadata_api_info := <["citation" := v]> metadata_api_info in
      Eff.ret metadata_api_info
    else Eff.ret metadata_api_info in
  let* metadata_api_info :=
    if canlii_database then
      let database_url :=
        "https://api.canlii.org/v1/caseBrowse/" +:+ format language
          +:+ "/?api_key=" +:+ API_KEY in
      let* response := requests_get E database_url in
      let* database_info := Eff.lift (json_of response) in
      Eff.ret (<["database" := database_info]> metadata_api_info)
    else Eff.ret metadata_api_info in
  Eff.ret metadata_api_info.

(** Columns of [results], as declared and as named by both [INSERT]s. *)
Definition results_columns : list string :=
  ["uid"; "style_of_cause"; "atomic_citation"; "citation_type"; "scr_citation";
   "year"; "court"; "decision_number"; "jurisdiction"; "court_name"; "court_level";
   "long_url"; "short_url"; "language"; "docket_number"; "decision_date"].

(** Columns assigned by [ON CONFLICT(uid) DO UPDATE SET ..]. *)
Definition set_columns : list string :=
  ["style_of_cause"; "atomic_citation"; "citation_type";
   "scr_citation"; "year"; "court";
   "decision_number"; "jurisdiction";
   "court_name"; "court_level"; "long_url";
   "short_url"; "language"; "docket_number";
   "decision_date"].

Definition keywords_columns : list string := ["uid"; "keyword"].
Definition categories_columns : list string := ["uid"; "category"].

(** The delimiter: space, U+2014 EM DASH, space. *)
Definition delimiter : string := " — ".

Definition create_citation_database (db : database) : result unit * conn :=
  (let* _ := execute (CreateTableIfNotExists "results" results_columns (Some "uid")) in
   let* _ := execute (CreateTableIfNotExists "keywords" keywords_columns None) in
   let* _ := execute (CreateTableIfNotExists "categories" categories_columns None) in
   let* _ := commit in
   close) (connect db).

(** [data[k]] *)
Definition subscript (data : gmap string pyval) (k : string) : result pyval :=
  match data !! k with
  | Some v => Return v
  | None => Raise (KeyError k)
  end.

(** [data.get(k)] *)
Definition get (data : gmap string pyval) (k : string) : pyval :=
  match data !! k with
  | Some v => v
  | None => PyNone
  end.

(** A tuple display [(data[k1], data[k2], ..)], evaluated left to right. *)
Fixpoint subscripts (data : gmap string pyval) (ks : list string) : result (list pyval) :=
  match ks with
  | [] => Return []
  | k :: ks' =>
      match subscript data k with
      | Raise e => Raise e
      | Return v =>
          match subscripts data ks' with
          | Raise e => Raise e
          | Return vs => Return (v :: vs)
          end
      end
  end.

(** [v.split(sep)] on a field value. *)
Definition split_method (v : pyval) (sep : string) : result (list string) :=
  match v with
  | PyStr s => split s sep
  | PyNone => Raise (OtherError "AttributeError")
  end.

(** The two [if data.get(field): .. for item in ..: c.execute(..)] blocks. *)
Definition insert_children (data : gmap string pyval) (field name : string)
    (cols : list string) : Eff.M conn unit :=
  if truthy (get data field)
  then
    let* v := Eff.lift (subscript data field) in
    let* items := Eff.lift (split_method v delimiter) in
    Eff.for_each items (λ item,
      let* uid := Eff.lift (subscript data "uid") in
      execute (Insert OrIgnore name cols [uid; PyStr item]))
  else Eff.ret tt.

Definition insert_data (data : gmap string pyval) (update_existing : bool)
    (db : database) : result unit * conn :=
  (let* _ :=
     if update_existing
     then
       let* vals := Eff.lift (subscripts data results_columns) in
       execute (Insert (DoUpdate "uid" set_columns) "results" results_columns vals)
     else
       let* vals := Eff.lift (subscripts data results_columns) in
       execute (Insert OrIgnore "results" results_columns vals)
   in
   let* _ := insert_children data "keywords" "keywords" keywords_columns in
   let* _ := insert_children data "categories" "categories" categories_columns in
   let* _ := commit in
   close) (connect db).

(** The statements of a call, on its connection: everything [insert_data]
    executes between [sqlite3.connect] and [conn.commit()]. *)
Definition insert_data_statements (data : gmap string pyval) (update_existing : bool)
    : Eff.M conn unit :=
  let* _ :=
    if update_existing
    then
      let* vals := Eff.lift (subscripts data results_columns) in
      execute (Insert (DoUpdate "uid" set_columns) "results" results_columns vals)
    else
      let* vals := Eff.lift (subscripts data results_columns) in
      execute (Insert OrIgnore "results" results_columns vals)
  in
  let* _ := insert_children data "keywords" "keywords" keywords_columns in
  insert_children data "categories" "categories" categories_columns.

(** What a call leaves in the file. *)
Definition stored (r : result unit * conn) : database := disk (snd r).

(** Rows of a table of the store ([[]] when there is no such table). *)
Definition rows_of (name : string) (db : database) : list row :=
  match db !! name with
  | Some t => tbl_rows t
  | None => []
  end.

(** ** Vocabulary of the statements below *)

(** Every key of the primary tuple is present in [data]. *)
Definition complete (data : gmap string pyval) : bool :=
  forallb (λ k, bool_decide (is_Some (data !! k))) results_columns.

(** The primary row built from a complete record. *)
Definition row_of (data : gmap string pyval) : row :=
  map (get data) results_columns.

(** The [uid] column of a row of [results]. *)
Definition uid_of (r : row) : pyval :=
  key_value results_columns (Some "uid") r.

Definition uid_str (r : row) : option string :=
  match uid_of r with
  | PyStr u => Some u
  | PyNone => None
  end.

(** Rows derived from a delimited field of [data]. *)
Definition child_rows (data : gmap string pyval) (field : string) : list row :=
  match get data field with
  | PyStr s =>
      if truthy (PyStr s)
      then map (λ item, [get data "uid"; PyStr item]) (split_scan delimiter 0 EmptyString s)
      else []
  | PyNone => []
  end.

(** Rows of [results] after the primary insert of [new]. *)
Definition put_row (update_existing : bool) (rows : list row) (new : row) : list row :=
  if existsb (λ old, same_key (uid_of new) (uid_of old)) rows
  then if update_existing
       then map (λ old, if same_key (uid_of new) (uid_of old) then new else old) rows
       else rows
  else rows ++ [new].

(** The store as [create_citation_database] lays it out: the three
    relations with their declared columns, full-width primary rows, and
    no two primary rows with the same non-[NULL] [uid]. *)
Definition schema_ok (db : database) : Prop :=
  ∃ rs ks cs,
    db !! "results" = Some (Table results_columns (Some "uid") rs) ∧
    db !! "keywords" = Some (Table keywords_columns None ks) ∧
    db !! "categories" = Some (Table categories_columns None cs) ∧
    Forall (λ r, length r = length results_columns) rs ∧
    NoDup (omap uid_str rs).

(** The store after a successful write. *)
Definition written (data : gmap string pyval) (update_existing : bool)
    (db : database) : database :=
  <["categories" := Table categories_columns None
                      (rows_of "categories" db ++ child_rows data "categories")]>
  (<["keywords" := Table keywords_columns None
                      (rows_of "keywords" db ++ child_rows data "keywords")]>
  (<["results" := Table results_columns (Some "uid")
                      (put_row update_existing (rows_of "results" db) (row_of data))]> db)).

(** The stores the module can produce: starting from a file that does not
    exist yet, schema initialisation first and then any sequence of calls. *)
Inductive reachable : database → Prop :=
  | reach_create_first :
      reachable (stored (create_citation_database ∅))
  | reach_create db :
      reachable db → reachable (stored (create_citation_database db))
  | reach_insert db data update_existing :
      reachable db → reachable (stored (insert_data data update_existing db)).

(** Statements that leave the file and the handle alone. *)
Definition quiet {A} (m : Eff.M conn A) : Prop :=
  ∀ c, disk (snd (m c)) = disk c ∧ is_open (snd (m c)) = is_open c.

(** [CREATE TABLE IF NOT EXISTS] on one name. *)
Definition ensure (name : string) (cols : list string) (key : option string)
    (db : database) : database :=
  match db !! name with
  | Some _ => db
  | None => <[name := Table cols key []]> db
  end.

Definition ensured (db : database) : database :=
  ensure "categories" categories_columns None
    (ensure "keywords" keywords_columns None
      (ensure "results" results_columns (Some "uid") db)).

(** Rows of [rows] whose [uid] is the string [u]. *)
Definition with_uid (u : string) (rows : list row) : list row :=
  filter (λ r, uid_of r = PyStr u) rows.

(** Rows of [rows] whose [uid] is anything else. *)
Definition without_uid (u : string) (rows : list row) : list row :=
  filter (λ r, uid_of r ≠ PyStr u) rows.

(** The class 2xx (Successful) of HTTP status codes. *)
Definition successful (status : Z) : bool := ((200 <=? status) && (status <=? 299))%Z.

(** The reachability contract read to the letter: the url comes back
    exactly for a response with a successful status, and otherwise the
    string "unresolvable" does. *)
Definition check_url_as_stated (E : env) (url : string) : Prop :=
  (fst (check_url E url []) = Return (PyStr url)
   ↔ ∃ resp, http_get E url = Return resp ∧ successful (status_code resp) = true) ∧
  ((∀ resp, http_get E url = Return resp → successful (status_code resp) = false →
      fst (check_url E url []) = Return (PyStr "unresolvable")) ∧
   (∀ f, http_get E url = Raise (RequestException f) →
      fst (check_url E url []) = Return (PyStr "unresolvable"))).

(** ** Facets of [canlii_api_call] *)

Inductive facet : Type :=
  | DecisionMetadata
  | CasesCited
  | CasesCiting
  | LegislationMetadata
  | CanliiDatabase.

#[export] Instance facet_eq_dec : EqDecision facet.
Proof. solve_decision. Defined.

(** The order in which the function goes through its five [if] blocks. *)
Definition facets : list facet :=
  [DecisionMetadata; CasesCited; CasesCiting; LegislationMetadata; CanliiDatabase].

(** The flags of a call, by facet. *)
Definition flags (decision_metadata legislation_metadata cases_cited cases_citing
    canlii_database : bool) (f : facet) : bool :=
  match f with
  | DecisionMetadata => decision_metadata
  | CasesCited => cases_cited
  | CasesCiting => cases_citing
  | LegislationMetadata => legislation_metadata
  | CanliiDatabase => canlii_database
  end.

(** Keys of the result a facet writes. *)
Definition keys (f : facet) : list string :=
  match f with
  | DecisionMetadata =>
      ["short_url"; "language"; "docket_number"; "decision_date"; "keywords"; "categories"]
  | CasesCited => ["cited_cases"]
  | CasesCiting => ["citing_cases"]
  | LegislationMetadata => ["database_id"; "legislation_id"; "title"; "type"; "citation"]
  | CanliiDatabase => ["database"]
  end.

(** For each key a facet writes, the member of the decoded response it is
    read from ([None]: the whole document). *)
Definition sources (f : facet) : list (string * option string) :=
  match f with
  | DecisionMetadata =>
      [("short_url", Some "url"); ("language", Some "language");
       ("docket_number", Some "docketNumber"); ("decision_date", Some "decisionDate");
       ("keywords", Some "keywords"); ("categories", Some "topics")]
  | CasesCited => [("cited_cases", None)]
  | CasesCiting => [("citing_cases", None)]
  | LegislationMetadata =>
      [("database_id", Some "databaseId"); ("legislation_id", Some "legislationId");
       ("title", Some "title"); ("type", Some "type"); ("citation", Some "citation")]
  | CanliiDatabase => [("database", None)]
  end.

Definition read (j : json) (source : option string) : result json :=
  match source with
  | Some k => item j k
  | None => Return j
  end.

(** The assignments of a facet's block, in order, on the decoded response. *)
Fixpoint assign (j : json) (srcs : list (string * option string))
    (info : gmap string json) : result (gmap string json) :=
  match srcs with
  | [] => Return info
  | (k, source) :: rest =>
      match read j source with
      | Return v => assign j rest (<[k := v]> info)
      | Raise e => Raise e
      end
  end.

Section call.

Variable E : env.
Variables case_id database_id legislation_id language : pyval.

(** The URL a facet's block requests. *)
Definition endpoint (f : facet) (API_KEY : string) : string :=
  match f with
  | DecisionMetadata =>
      "https://api.canlii.org/v1/caseBrowse/" +:+ format language +:+ "/"
        +:+ format database_id +:+ "/" +:+ format case_id +:+ "/?api_key=" +:+ API_KEY
  | CasesCited =>
      "https://api.canlii.org/v1/caseCitator/" +:+ format language +:+ "/"
        +:+ format database_id +:+ "/" +:+ format case_id
        +:+ "/citedCases?api_key=" +:+ API_KEY
  | CasesCiting =>
      "https://api.canlii.org/v1/caseCitator/" +:+ format language +:+ "/"
        +:+ format database_id +:+ "/" +:+ format case_id
        +:+ "/citingCases?api_key=" +:+ API_KEY
  | LegislationMetadata =>
      "https://api.canlii.org/v1/legislationBrowse/" +:+ format language +:+ "/"
        +:+ format database_id +:+ "/" +:+ format legislation_id
        +:+ "/?api_key=" +:+ API_KEY
  | CanliiDatabase =>
      "https://api.canlii.org/v1/caseBrowse/" +:+ format language
        +:+ "/?api_key=" +:+ API_KEY
  end.

(** One [if] block. *)
Definition fetch (API_KEY : string) (wanted : facet → bool) (f : facet)
    (info : gmap string json) : Eff.M (list event) (gmap string json) :=
  if wanted f then
    let* response := requests_get E (endpoint f API_KEY) in
    let* j := Eff.lift (json_of response) in
    Eff.lift (assign j (sources f) info)
  else Eff.ret info.

Fixpoint fetch_all (API_KEY : string) (wanted : facet → bool) (fs : list facet)
    (info : gmap string json) : Eff.M (list event) (gmap string json) :=
  match fs with
  | [] => Eff.ret info
  | f :: fs' =>
      let* info' := fetch API_KEY wanted f info in
      fetch_all API_KEY wanted fs' info'
  end.

End call.

(** The URLs requested in a trace, in order. *)
Definition requests (trace : list event) : list string :=
  omap (λ e, match e with Get url => Some url | _ => None end) trace.

(** The prompt printed when the environment holds no key. *)
Definition prompt : list event :=
  [Stdout "Please enter your CanLII API key (or blank input to exit):"; Input].

(** The same surroundings, every response carrying [status] instead of
    its own status code. *)
Definition with_status (status : Z) (E : env) : env :=
  {| getenv := getenv E;
     stdin_line := stdin_line E;
     http_get := λ url, match http_get E url with
                        | Return resp => Return (Response status (body resp))
                        | Raise e => Raise e
                        end |}.

(** ** Sample data *)

Definition sample : gmap string pyval :=
  list_to_map
    [("uid", PyStr "2021onca123"); ("style_of_cause", PyStr "R v Smith");
     ("atomic_citation", PyStr "2021 ONCA 123"); ("citation_type", PyStr "neutral");
     ("scr_citation", PyNone); ("year", PyStr "2021"); ("court", PyStr "onca");
     ("decision_number", PyStr "123"); ("jurisdiction", PyStr "on");
     ("court_name", PyStr "Court of Appeal for Ontario"); ("court_level", PyStr "appeal");
     ("long_url", PyStr "https://www.canlii.org/en/on/onca/doc/2021/2021onca123/2021onca123.html");
     ("short_url", PyStr "https://canlii.ca/t/x"); ("language", PyStr "en");
     ("docket_number", PyStr "C12345"); ("decision_date", PyStr "2021-03-01");
     ("keywords", PyStr "fraud — negligence — appeal");
     ("categories", PyStr "criminal — evidence")].

Definition initialised : database := stored (create_citation_database ∅).

(** A later fetch of the same case with other field values. *)
Definition sample_revised : gmap string pyval :=
  <["style_of_cause" := PyStr "R. v. Smith"]>
  (<["docket_number" := PyNone]>
  (<["decision_date" := PyStr "2021-03-02"]>
  (<["keywords" := PyStr EmptyString]> sample))).

(** A store that already holds the sample case. *)
Definition populated : database := stored (insert_data sample false initialised).

(** The sample record without a [uid] value: outside the data model, in
    which [uid] is a string. *)
Definition sample_anonymous : gmap string pyval :=
  <["uid" := PyNone]> (delete "keywords" (delete "categories" sample)).

(** The sample record with the same delimited string in both fields. *)
Definition sample_both : gmap string pyval :=
  <["categories" := PyStr "fraud — negligence — appeal"]> sample.

(** A record without the two optional keys. *)
Definition sample_bare : gmap string pyval :=
  delete "keywords" (delete "categories" sample).

(** An environment in which every GET is answered with [status] and an
    empty body. *)
Definition answering (status : Z) : env :=
  {| getenv := λ _, None; stdin_line := None;
     http_get := λ _, Return (Response status None) |}.

(** An environment in which every GET fails in transport. *)
Definition failing (f : transport_failure) : env :=
  {| getenv := λ _, None; stdin_line := None;
     http_get := λ _, Raise (RequestException f) |}.

(** An environment with a key configured, in which every GET is answered
    with [status] and a body that decodes to [j]. *)
Definition serving (status : Z) (j : json) : env :=
  {| getenv := λ name, if bool_decide (name = "CANLII_API_KEY") then Some "k" else None;
     stdin_line := None;
     http_get := λ _, Return (Response status (Some j)) |}.

(** An environment with no key configured and [line] typed at the prompt. *)
Definition typing (line : string) (j : json) : env :=
  {| getenv := λ _, None;
     stdin_line := Some line;
     http_get := λ _, Return (Response 200 (Some j)) |}.

(** The decision metadata of the sample case, as the service sends it. *)
Definition sample_metadata : json :=
  JObject [("databaseId", JString "onca"); ("caseId", JString "2021onca123");
           ("url", JString "https://canlii.ca/t/x"); ("title", JString "R v Smith");
           ("citation", JString "2021 ONCA 123 (CanLII)"); ("language", JString "en");
           ("docketNumber", JString "C12345"); ("decisionDate", JString "2021-03-01");
           ("keywords", JString "fraud — appeal"); ("topics", JString "criminal — evidence")].

(** An error document of the service. *)
Definition error_document : json :=
  JArray [JObject [("error", JString "TOO_MANY_REQUESTS")]].

(** An environment with a key configured, in which no body decodes. *)
Definition garbling : env :=
  {| getenv := λ name, if bool_decide (name = "CANLII_API_KEY") then Some "k" else None;
     stdin_line := None;
     http_get := λ _, Return (Response 200 None) |}.

(** ** Vocabulary of the further properties *)

(** [sep.join(items)] *)
Fixpoint join (sep : string) (items : list string) : string :=
  match items with
  | [] => EmptyString
  | x :: rest =>
      match rest with
      | [] => x
      | _ :: _ => x +:+ sep +:+ join sep rest
      end
  end.

(** [sep in s] *)
Definition contains (sep s : string) : Prop :=
  ∃ before after, s = before +:+ sep +:+ after.

(** [sep in s], by trying every position. *)
Fixpoint occurs (sep s : string) : bool :=
  String.prefix sep s
  || match s with
     | EmptyString => false
     | String _ s' => occurs sep s'
     end.

(** A table after some statements: same columns and key, no fewer rows,
    and when [strict], the old rows still first and in order. *)
Definition table_grows (strict : bool) (t t' : table) : Prop :=
  tbl_columns t' = tbl_columns t ∧ tbl_key t' = tbl_key t ∧
  (length (tbl_rows t) ≤ length (tbl_rows t'))%nat ∧
  (strict = true → tbl_rows t `prefix_of` tbl_rows t').

(** A store after some statements: every table is still there, grown. *)
Definition grows (strict : string → bool) (db db' : database) : Prop :=
  ∀ name t, db !! name = Some t →
    ∃ t', db' !! name = Some t' ∧ table_grows (strict name) t t'.

(** The relations in which a call keeps the old rows as they are: all of
    them under Ignore, all but [results] under Update. *)
Definition append_only (update_existing : bool) (name : string) : bool :=
  negb update_existing || negb (bool_decide (name = "results")).

(** The view of the connection moves along [R] with every step. *)
Definition tracks (R : database → database → Prop) {A} (m : Eff.M conn A) : Prop :=
  ∀ c, R (view c) (view (snd (m c))).

(** Grown, with no table added. *)
Definition grows_within (strict : string → bool) (db db' : database) : Prop :=
  grows strict db db' ∧ ∀ name, is_Some (db' !! name) → is_Some (db !! name).

(** A store laid out as declared, but for a [keywords] relation that was
    never created. *)
Definition without_keywords : database := delete "keywords" populated.

(** The sample case fetched again with a different style of cause. *)
Definition sample_again : gmap string pyval :=
  <["style_of_cause" := PyStr "Smith v R"]> sample.

(** Another case. *)
Definition sample_other : gmap string pyval :=
  <["uid" := PyStr "2020scc5"]> (<["court" := PyStr "scc"]> sample).

(** What the block of facet [f] makes of its response: the dictionary
    with the facet's keys assigned, or the exception of the request, of the
    decoding or of a subscript. *)
Definition answer (E : env) (case_id database_id legislation_id language : pyval)
    (API_KEY : string) (f : facet) (info : gmap string json) : result (gmap string json) :=
  match http_get E (endpoint case_id database_id legislation_id language f API_KEY) with
  | Return resp =>
      match json_of resp with
      | Return j => assign j (sources f) info
      | Raise e => Raise e
      end
  | Raise e => Raise e
  end.

(** An environment with a key configured whose GETs all raise [e]. *)
Definition raising (e : exn) : env :=
  {| getenv := λ name, if bool_decide (name = "CANLII_API_KEY") then Some "k" else None;
     stdin_line := None;
     http_get := λ _, Raise e |}.

(** An environment with no key configured and the console at end of input. *)
Definition unattended : env :=
  {| getenv := λ _, None; stdin_line := None;
     http_get := λ _, Return (Response 200 (Some JNull)) |}.

(** The decision metadata of the sample case with its docket number left
    out by the service. *)
Definition sample_metadata_short : json :=
  JObject [("url", JString "https://canlii.ca/t/x"); ("language", JString "en");
           ("decisionDate", JString "2021-03-01");
           ("keywords", JString "fraud — appeal"); ("topics", JString "criminal — evidence")].

(** * Properties *)

(** Settle a closed decidable statement by evaluation. *)
Ltac by_evaluation := apply (bool_decide_unpack _); by vm_compute.

(** [schema_ok] of a closed store, read off the store itself. *)
Ltac schema_ok_closed db :=
  exists (rows_of "results" db), (rows_of "keywords" db), (rows_of "categories" db);
  split_and!; [by vm_compute | by vm_compute | by vm_compute
              | by_evaluation | by_evaluation].

(** ** [str.split] on the delimiter *)

Example split_three :
  split "fraud — negligence — appeal" " — " = Return ["fraud"; "negligence"; "appeal"].
Proof. reflexivity. Qed.

Example split_none : split "fraud" " — " = Return ["fraud"].
Proof. reflexivity. Qed.

Example split_overlap : split "a — — b" " — " = Return ["a"; "— b"].
Proof. reflexivity. Qed.

Example split_trailing : split "a — " " — " = Return ["a"; EmptyString].
Proof. reflexivity. Qed.

Example delimiter_bytes : String.length " — " = 5.
Proof. reflexivity. Qed.

(** ** Facts about the store *)

Lemma assigned_other c c0 cols v vals :
  c ≠ c0 → assigned c (c0 :: cols) (v :: vals) = assigned c cols vals.
Proof. intros Hne. simpl. by rewrite bool_decide_eq_false_2. Qed.

Lemma assigned_columns cols : ∀ vals,
  NoDup cols → length vals = length cols →
  map (λ c, assigned c cols vals) cols = vals.
Proof.
  induction cols as [|c0 cols IH]; intros [|v vals] Hnd Hlen; simpl in *; try done.
  apply NoDup_cons in Hnd as [Hnotin Hnd].
  rewrite bool_decide_eq_true_2 by done. f_equal.
  transitivity (map (λ c, assigned c cols vals) cols); [|apply IH; [done|lia]].
  apply map_ext_in. intros c Hin.
  rewrite bool_decide_eq_false_2; [done|].
  intros ->. apply Hnotin. by apply list_elem_of_In.
Qed.

Lemma bind_columns_same t cols vals :
  tbl_columns t = cols → NoDup cols → length vals = length cols →
  bind_columns t cols vals = vals.
Proof.
  intros Hc Hnd Hlen. unfold bind_columns. rewrite Hc.
  by rewrite assigned_columns.
Qed.

(** A statement that names only columns of the table passes the check. *)
Lemma unknown_column_none t cols :
  cols ⊆ tbl_columns t → unknown_column t cols = None.
Proof.
  intros Hsub. unfold unknown_column.
  destruct (find _ cols) as [c|] eqn:Hfind; [|done].
  apply find_some in Hfind as [Hin Hc].
  apply negb_true_iff, bool_decide_eq_false_1 in Hc.
  destruct Hc. apply Hsub. by apply list_elem_of_In.
Qed.

(** A table without a key never reports a conflict. *)
Lemma no_key_no_conflict t new rows :
  tbl_key t = None → existsb (conflicts t new) rows = false.
Proof.
  intros Hk. induction rows as [|r rows IH]; [done|].
  simpl. rewrite IH. unfold conflicts. by rewrite Hk.
Qed.

Lemma insert_into_no_key oc t new :
  tbl_key t = None →
  insert_into oc t new = Return (with_rows t (tbl_rows t ++ [new])).
Proof. intros Hk. unfold insert_into. by rewrite no_key_no_conflict. Qed.

(** [INSERT OR IGNORE] into a two-column table that declares no key
    appends the row, whatever the table holds already. *)
Lemma exec_insert_child db name c1 c2 rows u v :
  c1 ≠ c2 →
  db !! name = Some (Table [c1; c2] None rows) →
  exec (Insert OrIgnore name [c1; c2] [u; v]) db
  = Return (<[name := Table [c1; c2] None (rows ++ [[u; v]])]> db).
Proof.
  intros Hne Hdb. unfold exec. rewrite Hdb.
  rewrite unknown_column_none by done. simpl.
  assert (NoDup [c1; c2]) as Hnd.
  { apply NoDup_cons. split; [|apply NoDup_singleton].
    intros Hin. apply list_elem_of_singleton in Hin. done. }
  rewrite (bind_columns_same _ [c1; c2] [u; v]) by done.
  by rewrite insert_into_no_key.
Qed.

(** ** Facts about the record writer *)

Lemma uid_of_cons v vs : uid_of (v :: vs) = v.
Proof. reflexivity. Qed.

Lemma subscripts_present data ks :
  forallb (λ k, bool_decide (is_Some (data !! k))) ks = true →
  subscripts data ks = Return (map (get data) ks).
Proof.
  induction ks as [|k ks IH]; simpl; [done|].
  intros [Hk Hks]%andb_true_iff. apply bool_decide_eq_true_1 in Hk as [v Hv].
  unfold subscript, get. rewrite Hv, (IH Hks). done.
Qed.

Lemma subscripts_missing data ks :
  forallb (λ k, bool_decide (is_Some (data !! k))) ks = false →
  ∃ k, subscripts data ks = Raise (KeyError k) ∧ k ∈ ks ∧ data !! k = None.
Proof.
  induction ks as [|k ks IH]; simpl; [done|].
  intros H. unfold subscript. destruct (data !! k) as [v|] eqn:Hk.
  - rewrite bool_decide_eq_true_2 in H by eauto. simpl in H.
    destruct (IH H) as (k' & -> & Hin & Hnone).
    exists k'. split_and!; [done| by right |done].
  - exists k. split_and!; [done| by left |done].
Qed.

Lemma row_of_length data : length (row_of data) = length results_columns.
Proof. unfold row_of. by rewrite length_map. Qed.

Lemma uid_of_row_of data : uid_of (row_of data) = get data "uid".
Proof. reflexivity. Qed.

Lemma results_columns_NoDup : NoDup results_columns.
Proof. apply (bool_decide_unpack _). by vm_compute. Qed.

(** The upsert sets every column but the key: fifteen of the sixteen. *)
Lemma set_columns_all :
  set_columns = tail results_columns ∧ length set_columns = 15%nat.
Proof. by split. Qed.

Lemma update_row_replaces c0 cs set : ∀ o os e es,
  bool_decide (c0 ∈ set) = false →
  forallb (λ c, bool_decide (c ∈ set)) cs = true →
  length os = length cs → length es = length cs →
  update_row (c0 :: cs) set (o :: os) (e :: es) = o :: es.
Proof.
  intros o os e es Hc0 Hcs Hos Hes. simpl. rewrite Hc0. f_equal.
  revert os es Hcs Hos Hes.
  induction cs as [|c cs IH]; intros [|o' os] [|e' es] Hcs Hos Hes;
    simpl in *; try done.
  apply andb_true_iff in Hcs as [-> Hcs]. f_equal. apply IH; [done|lia..].
Qed.

(** With [old] and [new] sharing their [uid], the upsert's [SET] list
    turns the stored row into the incoming one. *)
Lemma update_row_results old new :
  length old = length results_columns → length new = length results_columns →
  same_key (uid_of new) (uid_of old) = true →
  update_row results_columns set_columns old new = new.
Proof.
  intros Hold Hnew Hsame.
  destruct old as [|o os]; [done|]. destruct new as [|e es]; [done|].
  rewrite !uid_of_cons in Hsame.
  unfold results_columns at 1. rewrite update_row_replaces.
  - destruct e, o; simpl in Hsame; try done.
    by apply bool_decide_eq_true_1 in Hsame as ->.
  - by vm_compute.
  - by vm_compute.
  - simpl in *. lia.
  - simpl in *. lia.
Qed.

Lemma same_key_eq a b : same_key a b = true → ∃ u, a = PyStr u ∧ b = PyStr u.
Proof.
  destruct a as [|x], b as [|y]; simpl; try done.
  intros ->%bool_decide_eq_true_1. eauto.
Qed.

Lemma same_key_str u v : same_key (PyStr u) v = bool_decide (v = PyStr u).
Proof.
  destruct v as [|y]; simpl; [done|].
  apply bool_decide_ext. split; [by intros ->|by intros [= ->]].
Qed.

(** The primary insert, in either mode, on a store laid out as declared. *)
Lemma exec_insert_results db rs new (update_existing : bool) :
  db !! "results" = Some (Table results_columns (Some "uid") rs) →
  Forall (λ r, length r = length results_columns) rs →
  length new = length results_columns →
  exec (Insert (if update_existing then DoUpdate "uid" set_columns else OrIgnore)
               "results" results_columns new) db
  = Return (<["results" := Table results_columns (Some "uid")
                             (put_row update_existing rs new)]> db).
Proof.
  intros Hdb Hwidth Hnew. unfold exec. rewrite Hdb.
  rewrite unknown_column_none by done.
  assert (target_ok (if update_existing then DoUpdate "uid" set_columns else OrIgnore)
            (Table results_columns (Some "uid") rs) = true) as ->
    by (destruct update_existing; by vm_compute).
  simpl negb. cbv iota.
  assert (unknown_column (Table results_columns (Some "uid") rs)
            (set_of (if update_existing then DoUpdate "uid" set_columns else OrIgnore))
          = None) as ->
    by (destruct update_existing; by vm_compute).
  rewrite (bind_columns_same _ results_columns new)
    by (done || apply results_columns_NoDup).
  unfold insert_into, put_row, with_rows. simpl tbl_rows. simpl tbl_columns. simpl tbl_key.
  change (conflicts (Table results_columns (Some "uid") rs) new)
    with (λ old, same_key (uid_of new) (uid_of old)).
  destruct (existsb _ rs); [|done].
  destruct update_existing; [|done].
  do 3 f_equal.
  apply map_ext_in. intros old Hin.
  destruct (same_key _ _) eqn:Hsame; [|done].
  apply update_row_results; [|done..].
  rewrite Forall_forall in Hwidth. apply Hwidth. by apply list_elem_of_In.
Qed.

Lemma put_row_width update_existing rs new :
  Forall (λ r, length r = length results_columns) rs →
  length new = length results_columns →
  Forall (λ r, length r = length results_columns) (put_row update_existing rs new).
Proof.
  intros Hrs Hnew. unfold put_row.
  destruct (existsb _ _).
  - destruct update_existing; [|done].
    apply Forall_map. eapply Forall_impl; [exact Hrs|].
    intros old Hold. simpl. by destruct (same_key _ _).
  - apply Forall_app. split; [done|]. by apply Forall_singleton.
Qed.
Lemma omap_cons_unfold {A B} (f : A → option B) x l :
  omap f (x :: l) = match f x with Some y => y :: omap f l | None => omap f l end.
Proof. reflexivity. Qed.

Lemma put_row_uids_replace rs new :
  omap uid_str (map (λ old, if same_key (uid_of new) (uid_of old) then new else old) rs)
  = omap uid_str rs.
Proof.
  induction rs as [|r rs IH]; [done|].
  rewrite map_cons, !omap_cons_unfold, IH.
  destruct (same_key _ _) eqn:Hsame; [|done].
  apply same_key_eq in Hsame as (u & Hn & Ho). unfold uid_str. by rewrite Hn, Ho.
Qed.

Lemma existsb_same_key_false rs new u :
  existsb (λ old, same_key (uid_of new) (uid_of old)) rs = false →
  uid_of new = PyStr u → u ∉ omap uid_str rs.
Proof.
  intros Hex Hu [r [Hin Hr]]%list_elem_of_omap.
  assert (existsb (λ old, same_key (uid_of new) (uid_of old)) rs = true) as Htrue.
  { apply existsb_exists. exists r. split; [by apply list_elem_of_In|].
    unfold uid_str in Hr. destruct (uid_of r) eqn:Hold; [done|].
    injection Hr as ->. rewrite Hu. simpl. by apply bool_decide_eq_true_2. }
  congruence.
Qed.

Lemma put_row_unique update_existing rs new :
  NoDup (omap uid_str rs) → NoDup (omap uid_str (put_row update_existing rs new)).
Proof.
  intros Hnd. unfold put_row.
  destruct (existsb _ _) eqn:Hex.
  - destruct update_existing; [|done]. by rewrite put_row_uids_replace.
  - rewrite omap_app, omap_cons_unfold. unfold uid_str at 2.
    destruct (uid_of new) as [|u] eqn:Hu.
    + by rewrite app_nil_r.
    + apply NoDup_app. split_and!; [done| |apply NoDup_singleton].
      intros x Hx ->%list_elem_of_singleton.
      rewrite <- Hu in Hex. exact (existsb_same_key_false rs new u Hex Hu Hx).
Qed.

(** *** Running the writer *)

Lemma for_each_insert_child name c1 c2 uid : ∀ items c rows,
  c1 ≠ c2 →
  view c !! name = Some (Table [c1; c2] None rows) →
  Eff.for_each items (λ item,
    let* u := Eff.lift (Return uid) in
    execute (Insert OrIgnore name [c1; c2] [u; PyStr item])) c
  = (Return tt,
     Conn (disk c)
          (<[name := Table [c1; c2] None (rows ++ map (λ item, [uid; PyStr item]) items)]>
             (view c))
          (is_open c)).
Proof.
  induction items as [|item items IH]; intros c rows Hne Hview.
  - simpl. unfold Eff.ret. rewrite app_nil_r, insert_id by done. by destruct c.
  - simpl. unfold Eff.bind at 1. unfold Eff.bind at 1. unfold Eff.lift at 1.
    unfold execute at 1. rewrite (exec_insert_child _ _ _ _ rows) by done.
    rewrite (IH _ (rows ++ [[uid; PyStr item]])); [|done|simpl; apply lookup_insert_eq].
    simpl. by rewrite insert_insert_eq, <- app_assoc.
Qed.

Lemma insert_children_run data field name c1 c2 c rows :
  c1 ≠ c2 →
  view c !! name = Some (Table [c1; c2] None rows) →
  is_Some (data !! "uid") →
  insert_children data field name [c1; c2] c
  = (Return tt,
     Conn (disk c)
          (<[name := Table [c1; c2] None (rows ++ child_rows data field)]> (view c))
          (is_open c)).
Proof.
  intros Hne Hview [uid Huid]. unfold insert_children, child_rows, get.
  destruct (data !! field) as [[|s]|] eqn:Hfield.
  - simpl. unfold Eff.ret. rewrite app_nil_r, insert_id by done. by destruct c.
  - destruct (truthy (PyStr s)) eqn:Htruthy.
    + unfold Eff.bind, Eff.lift, subscript. rewrite Hfield, Huid.
      simpl split_method. unfold split, delimiter. cbv iota.
      by apply (for_each_insert_child name c1 c2 uid).
    + unfold Eff.ret. rewrite app_nil_r, insert_id by done. by destruct c.
  - simpl. unfold Eff.ret. rewrite app_nil_r, insert_id by done. by destruct c.
Qed.

Lemma complete_uid data : complete data = true → is_Some (data !! "uid").
Proof.
  unfold complete. intros H. rewrite forallb_forall in H.
  apply (bool_decide_eq_true_1 _), H. simpl. by left.
Qed.

(** On an initialised store a complete record is written, committed, and
    the connection closed. *)
Lemma insert_data_run data update_existing db :
  schema_ok db → complete data = true →
  insert_data data update_existing db
  = (Return tt, Conn (written data update_existing db) (written data update_existing db) false).
Proof.
  intros (rs & ks & cs & Hrs & Hks & Hcs & Hwidth & Hnd) Hcomplete.
  pose proof (complete_uid _ Hcomplete) as Huid.
  unfold insert_data, written, rows_of. rewrite Hrs, Hks, Hcs.
  unfold Eff.bind at 1.
  assert ((if update_existing
           then let* vals := Eff.lift (subscripts data results_columns) in
                execute (Insert (DoUpdate "uid" set_columns) "results" results_columns vals)
           else let* vals := Eff.lift (subscripts data results_columns) in
                execute (Insert OrIgnore "results" results_columns vals)) (connect db)
          = (Return tt, Conn db (<["results" := Table results_columns (Some "uid")
                                      (put_row update_existing rs (row_of data))]> db) true)) as ->.
  { pose proof (exec_insert_results db rs (row_of data) update_existing Hrs Hwidth
                  (row_of_length data)) as Hexec.
    destruct update_existing; unfold Eff.bind, Eff.lift, execute;
      rewrite (subscripts_present _ _ Hcomplete); fold (row_of data);
      simpl view; by rewrite Hexec. }
  unfold Eff.bind at 1.
  rewrite (insert_children_run data "keywords" "keywords" "uid" "keyword" _ ks);
    [|done|by simpl; rewrite lookup_insert_ne|done].
  unfold Eff.bind at 1.
  rewrite (insert_children_run data "categories" "categories" "uid" "category" _ cs);
    [|done|by simpl; rewrite !lookup_insert_ne|done].
  reflexivity.
Qed.

(** *** Statements before the commit leave the file and the handle alone *)

Lemma quiet_ret {A} (a : A) : quiet (Eff.ret a).
Proof. by intros c. Qed.

Lemma quiet_lift {A} (r : result A) : quiet (Eff.lift r).
Proof. by intros c. Qed.

Lemma quiet_execute st : quiet (execute st).
Proof. intros c. unfold execute. by destruct (exec st (view c)). Qed.

Lemma quiet_bind {A B} (m : Eff.M conn A) (k : A → Eff.M conn B) :
  quiet m → (∀ a, quiet (k a)) → quiet (Eff.bind m k).
Proof.
  intros Hm Hk c. unfold Eff.bind. destruct (Hm c) as [Hd Ho].
  destruct (m c) as [[a|e] c']; simpl in *.
  - destruct (Hk a c') as [Hd' Ho']. split; congruence.
  - done.
Qed.

Lemma quiet_for_each {A} (xs : list A) (body : A → Eff.M conn unit) :
  (∀ x, quiet (body x)) → quiet (Eff.for_each xs body).
Proof.
  intros Hbody. induction xs as [|x xs IH]; simpl.
  - apply quiet_ret.
  - apply quiet_bind; [apply Hbody|]. by intros _.
Qed.

Create HintDb quiet.
#[local] Hint Resolve quiet_ret quiet_lift quiet_execute : quiet.

Lemma quiet_insert_children data field name cols :
  quiet (insert_children data field name cols).
Proof.
  unfold insert_children. destruct (truthy _); [|auto with quiet].
  apply quiet_bind; [auto with quiet|]. intros v.
  apply quiet_bind; [auto with quiet|]. intros items.
  apply quiet_for_each. intros item.
  apply quiet_bind; auto with quiet.
Qed.

(** A call either returns with everything committed and the connection
    closed, or raises with the file as it was and the connection still
    open. *)
Lemma insert_data_outcome data update_existing db :
  match insert_data data update_existing db with
  | (Return _, c) => is_open c = false ∧ disk c = view c
  | (Raise _, c) => is_open c = true ∧ disk c = db
  end.
Proof.
  unfold insert_data.
  set (primary := if update_existing then _ else _).
  assert (quiet primary) as Hprimary.
  { subst primary. destruct update_existing;
      (apply quiet_bind; [auto with quiet|]; intros vals; auto with quiet). }
  unfold Eff.bind at 1. destruct (Hprimary (connect db)) as [Hd1 Ho1].
  destruct (primary (connect db)) as [[[]|e] c1]; simpl in Hd1, Ho1; [|done].
  unfold Eff.bind at 1.
  destruct (quiet_insert_children data "keywords" "keywords" keywords_columns c1) as [Hd2 Ho2].
  destruct (insert_children _ _ _ _ c1) as [[[]|e] c2]; simpl in Hd2, Ho2;
    [|split; congruence].
  unfold Eff.bind at 1.
  destruct (quiet_insert_children data "categories" "categories" categories_columns c2)
    as [Hd3 Ho3].
  destruct (insert_children _ _ _ _ c2) as [[[]|e] c3]; simpl in Hd3, Ho3;
    [|split; congruence].
  done.
Qed.

Lemma insert_data_raise data update_existing db e c :
  insert_data data update_existing db = (Raise e, c) → is_open c = true ∧ disk c = db.
Proof.
  intros H. pose proof (insert_data_outcome data update_existing db) as Hout.
  by rewrite H in Hout.
Qed.

(** A record lacking a key of the primary tuple raises [KeyError] before
    any statement runs. *)
Lemma insert_data_incomplete data update_existing db :
  complete data = false →
  ∃ k, k ∈ results_columns ∧ data !! k = None ∧
       insert_data data update_existing db = (Raise (KeyError k), connect db).
Proof.
  intros Hinc. destruct (subscripts_missing _ _ Hinc) as (k & Hsub & Hin & Hnone).
  exists k. split_and!; [done..|].
  unfold insert_data.
  destruct update_existing; unfold Eff.bind, Eff.lift; by rewrite Hsub.
Qed.

(** *** Schema initialisation *)

Lemma create_citation_database_run db :
  create_citation_database db = (Return tt, Conn (ensured db) (ensured db) false).
Proof.
  unfold create_citation_database, ensured, ensure, Eff.bind, execute, exec, connect.
  simpl view.
  destruct (db !! "results"); simpl view;
    (destruct (_ !! "keywords"); simpl view);
    (destruct (_ !! "categories"); simpl view); reflexivity.
Qed.

Lemma ensure_keeps name cols key db n t :
  db !! n = Some t → ensure name cols key db !! n = Some t.
Proof.
  intros Hn. unfold ensure. destruct (db !! name) eqn:Hname; [done|].
  rewrite lookup_insert_ne; [done|]. intros ->. congruence.
Qed.

Lemma ensure_exists name cols key db : is_Some (ensure name cols key db !! name).
Proof.
  unfold ensure. destruct (db !! name) eqn:Hname.
  - by rewrite Hname.
  - rewrite lookup_insert_eq. eauto.
Qed.

Lemma ensured_keeps db n t : db !! n = Some t → ensured db !! n = Some t.
Proof. intros H. unfold ensured. by do 3 apply ensure_keeps. Qed.

Lemma ensured_exists db n :
  n ∈ ["results"; "keywords"; "categories"] → is_Some (ensured db !! n).
Proof.
  intros Hn. unfold ensured.
  rewrite !elem_of_cons in Hn. destruct Hn as [->|[->|[->|Hn]]].
  - destruct (ensure_exists "results" results_columns (Some "uid") db) as [t Ht].
    exists t. by do 2 apply ensure_keeps.
  - destruct (ensure_exists "keywords" keywords_columns None
                (ensure "results" results_columns (Some "uid") db)) as [t Ht].
    exists t. by apply ensure_keeps.
  - apply ensure_exists.
  - by apply elem_of_nil in Hn.
Qed.

(** Once every relation exists, initialising again changes nothing. *)
Lemma ensured_idempotent db : ensured (ensured db) = ensured db.
Proof.
  unfold ensured at 1. unfold ensure.
  destruct (ensured_exists db "results") as [t1 ->]; [set_solver|].
  destruct (ensured_exists db "keywords") as [t2 ->]; [set_solver|].
  destruct (ensured_exists db "categories") as [t3 ->]; [set_solver|].
  done.
Qed.

Lemma schema_ok_initialised : schema_ok initialised.
Proof.
  exists [], [], []. split_and!; try by vm_compute.
  all: constructor.
Qed.

Lemma schema_ok_ensured db : schema_ok db → ensured db = db.
Proof.
  intros (rs & ks & cs & Hrs & Hks & Hcs & _).
  unfold ensured, ensure. by rewrite Hrs, Hks, Hcs.
Qed.

Lemma written_results data update_existing db :
  rows_of "results" (written data update_existing db)
  = put_row update_existing (rows_of "results" db) (row_of data).
Proof.
  unfold written, rows_of at 1.
  by rewrite lookup_insert_ne, lookup_insert_ne, lookup_insert_eq.
Qed.

Lemma written_keywords data update_existing db :
  rows_of "keywords" (written data update_existing db)
  = rows_of "keywords" db ++ child_rows data "keywords".
Proof.
  unfold written, rows_of at 1.
  by rewrite lookup_insert_ne, lookup_insert_eq.
Qed.

Lemma written_categories data update_existing db :
  rows_of "categories" (written data update_existing db)
  = rows_of "categories" db ++ child_rows data "categories".
Proof. unfold written, rows_of at 1. by rewrite lookup_insert_eq. Qed.

(** The writer keeps the store laid out as declared. *)
Lemma schema_ok_written data update_existing db :
  schema_ok db → schema_ok (written data update_existing db).
Proof.
  intros (rs & ks & cs & Hrs & Hks & Hcs & Hwidth & Hnd).
  exists (put_row update_existing rs (row_of data)),
         (ks ++ child_rows data "keywords"), (cs ++ child_rows data "categories").
  unfold written, rows_of. rewrite Hrs, Hks, Hcs.
  split_and!.
  - by rewrite lookup_insert_ne, lookup_insert_ne, lookup_insert_eq.
  - by rewrite lookup_insert_ne, lookup_insert_eq.
  - by rewrite lookup_insert_eq.
  - apply put_row_width; [done|apply row_of_length].
  - by apply put_row_unique.
Qed.

Lemma schema_ok_insert_data data update_existing db :
  schema_ok db → schema_ok (stored (insert_data data update_existing db)).
Proof.
  intros Hok. destruct (complete data) eqn:Hc.
  - rewrite insert_data_run by done. by apply schema_ok_written.
  - destruct (insert_data_incomplete data update_existing db Hc) as (k & _ & _ & ->).
    done.
Qed.

(** Every store the module produces is laid out as declared. *)
Lemma reachable_schema_ok db : reachable db → schema_ok db.
Proof.
  induction 1 as [|db Hreach IH|db data update_existing Hreach IH].
  - apply schema_ok_initialised.
  - rewrite create_citation_database_run. unfold stored. simpl.
    by rewrite (schema_ok_ensured db IH).
  - by apply schema_ok_insert_data.
Qed.

(** *** Primary rows by [uid] *)

Lemma elem_of_map {A B} (f : A → B) (l : list A) (y : B) :
  y ∈ map f l ↔ ∃ x, y = f x ∧ x ∈ l.
Proof.
  rewrite list_elem_of_In, in_map_iff. split.
  - intros (x & <- & Hin). exists x. by rewrite list_elem_of_In.
  - intros (x & -> & Hin). exists x. by rewrite <- list_elem_of_In.
Qed.

Lemma uid_str_Some r u : uid_str r = Some u ↔ uid_of r = PyStr u.
Proof.
  unfold uid_str. destruct (uid_of r); split; intros H; try done; by injection H as ->.
Qed.

Lemma conflict_iff rs new u :
  uid_of new = PyStr u →
  existsb (λ old, same_key (uid_of new) (uid_of old)) rs = true
  ↔ ∃ r, r ∈ rs ∧ uid_of r = PyStr u.
Proof.
  intros Hu. rewrite existsb_exists. split.
  - intros (r & Hin & Hsame). exists r. split; [by apply list_elem_of_In|].
    apply same_key_eq in Hsame as (v & Hn & Ho). congruence.
  - intros (r & Hin & Hr). exists r. split; [by apply list_elem_of_In|].
    rewrite Hu, Hr. simpl. by apply bool_decide_eq_true_2.
Qed.

Lemma with_uid_unique u rs :
  NoDup (omap uid_str rs) → (length (with_uid u rs) ≤ 1)%nat.
Proof.
  unfold with_uid. induction rs as [|r rs IH]; [simpl; lia|].
  rewrite omap_cons_unfold. rewrite filter_cons.
  destruct (decide (uid_of r = PyStr u)) as [Hr|Hr].
  - apply uid_str_Some in Hr as Hs. rewrite Hs.
    intros [Hnotin Hnd]%NoDup_cons. simpl.
    destruct (filter _ rs) as [|r' l] eqn:Hf; [simpl; lia|].
    exfalso. apply Hnotin. apply list_elem_of_omap. exists r'.
    assert (r' ∈ filter (λ r, uid_of r = PyStr u) rs) as Hin by (rewrite Hf; by left).
    apply list_elem_of_filter in Hin as [Hu' Hin]. split; [done|]. by apply uid_str_Some.
  - intros Hnd. apply IH. destruct (uid_str r); [by apply NoDup_cons in Hnd as [_ ?]|done].
Qed.

Lemma put_row_member update_existing rs new u :
  uid_of new = PyStr u →
  ∃ r, r ∈ put_row update_existing rs new ∧ uid_of r = PyStr u.
Proof.
  intros Hu. unfold put_row. destruct (existsb _ _) eqn:Hex.
  - apply (conflict_iff _ _ u Hu) in Hex as (r & Hin & Hr).
    destruct update_existing; [|by exists r].
    exists new. split; [|done]. apply elem_of_map. exists r. split; [|done].
    rewrite Hu, Hr. simpl. by rewrite bool_decide_eq_true_2.
  - exists new. split; [|done]. apply elem_of_app. right. by left.
Qed.

(** Under [INSERT OR IGNORE] a conflicting row leaves the table as it is,
    and writing the same row again always does. *)
Lemma put_row_ignore_present rs new u :
  uid_of new = PyStr u → (∃ r, r ∈ rs ∧ uid_of r = PyStr u) →
  put_row false rs new = rs.
Proof.
  intros Hu Hex. apply (conflict_iff _ _ u Hu) in Hex. unfold put_row. by rewrite Hex.
Qed.

Lemma put_row_ignore_again rs new u :
  uid_of new = PyStr u →
  put_row false (put_row false rs new) new = put_row false rs new.
Proof.
  intros Hu. apply (put_row_ignore_present _ _ u Hu). by apply put_row_member.
Qed.

(** Under the upsert every row carrying the incoming [uid] is the incoming
    row. *)
Lemma put_row_update_rows rs new u r :
  uid_of new = PyStr u →
  r ∈ put_row true rs new → uid_of r = PyStr u → r = new.
Proof.
  intros Hu Hin Hr. unfold put_row in Hin. destruct (existsb _ _) eqn:Hex.
  - apply elem_of_map in Hin as (old & -> & Hold).
    destruct (same_key _ _) eqn:Hsame; [done|].
    rewrite Hu, Hr in Hsame. simpl in Hsame. by rewrite bool_decide_eq_true_2 in Hsame.
  - apply elem_of_app in Hin as [Hin|Hin].
    + assert (existsb (λ old, same_key (uid_of new) (uid_of old)) rs = true) as Htrue
        by (apply (conflict_iff _ _ u Hu); eauto).
      congruence.
    + by apply list_elem_of_singleton in Hin.
Qed.

Lemma put_row_update_with_uid rs new u :
  uid_of new = PyStr u → NoDup (omap uid_str rs) →
  with_uid u (put_row true rs new) = [new].
Proof.
  intros Hu Hnd.
  pose proof (with_uid_unique u _ (put_row_unique true rs new Hnd)) as Hlen.
  destruct (put_row_member true rs new u Hu) as (r & Hin & Hr).
  assert (r ∈ with_uid u (put_row true rs new)) as Hin'
    by (by apply list_elem_of_filter).
  destruct (with_uid u (put_row true rs new)) as [|r1 [|r2 l]] eqn:Hf.
  - by apply elem_of_nil in Hin'.
  - apply list_elem_of_singleton in Hin' as <-.
    f_equal. by apply (put_row_update_rows rs new u).
  - simpl in Hlen. lia.
Qed.

(** Rows with any other [uid] are left as they were, in either mode. *)
Lemma put_row_without_uid update_existing rs new u :
  uid_of new = PyStr u →
  without_uid u (put_row update_existing rs new) = without_uid u rs.
Proof.
  intros Hu. unfold put_row, without_uid. destruct (existsb _ _).
  - destruct update_existing; [|done].
    induction rs as [|r rs IH]; [done|].
    rewrite map_cons, !filter_cons, IH.
    destruct (same_key _ _) eqn:Hsame.
    + apply same_key_eq in Hsame as (v & Hn & Ho).
      assert (v = u) as -> by congruence.
      rewrite decide_False by (by intros ?).
      by rewrite decide_False by (by intros ?).
    + done.
  - rewrite filter_app, filter_cons, decide_False by (by intros ?).
    by rewrite filter_nil, app_nil_r.
Qed.

Lemma put_row_fresh update_existing rs new u :
  uid_of new = PyStr u → PyStr u ∉ map uid_of rs →
  put_row update_existing rs new = rs ++ [new].
Proof.
  intros Hu Hfresh. unfold put_row.
  destruct (existsb _ _) eqn:Hex; [|done].
  apply (conflict_iff _ _ u Hu) in Hex as (r & Hin & Hr).
  exfalso. apply Hfresh. rewrite <- Hr. apply elem_of_map. eauto.
Qed.

(** ** Properties of the store operations *)

Lemma rows_of_ensure name cols key db n :
  rows_of n (ensure name cols key db) = rows_of n db.
Proof.
  unfold ensure. destruct (db !! name) eqn:Hname; [done|].
  unfold rows_of. destruct (decide (name = n)) as [->|Hne].
  - by rewrite lookup_insert_eq, Hname.
  - by rewrite lookup_insert_ne.
Qed.

(** C8. Schema initialisation can be run any number of times on any store:
    the call after [n] earlier ones returns normally with its connection
    closed, every relation holds exactly the rows it held at the start, the
    tables that existed are still there unchanged, and the three relations
    exist. *)
Theorem create_citation_database_reinit (n : nat) (db : database) :
  let before := Nat.iter n (λ d, stored (create_citation_database d)) db in
  let r := create_citation_database before in
  fst r = Return tt ∧ is_open (snd r) = false ∧
  (∀ name, rows_of name (stored r) = rows_of name db) ∧
  db ⊆ stored r ∧
  Forall (λ name, is_Some (stored r !! name)) ["results"; "keywords"; "categories"].
Proof.
  assert (∀ d name, rows_of name (ensured d) = rows_of name d) as Hrows.
  { intros d name. unfold ensured. by rewrite !rows_of_ensure. }
  assert (∀ k, Nat.iter k (λ d, stored (create_citation_database d)) db
               = Nat.iter k ensured db) as Hiter.
  { induction k as [|k IH]; [done|]. simpl. rewrite IH.
    by rewrite create_citation_database_run. }
  assert (∀ k name, rows_of name (Nat.iter k ensured db) = rows_of name db) as Hrowsk.
  { induction k as [|k IH]; intros name; [done|]. simpl. by rewrite Hrows. }
  assert (∀ k name t, db !! name = Some t → Nat.iter k ensured db !! name = Some t) as Hkeep.
  { induction k as [|k IH]; intros name t Ht; [done|]. simpl.
    by apply ensured_keeps, IH. }
  intros before r. subst r before. rewrite Hiter, create_citation_database_run.
  unfold stored. simpl. split_and!; [done..| | |].
  - intros name. by rewrite Hrows, Hrowsk.
  - apply map_subseteq_spec. intros name t Ht. by apply ensured_keeps, Hkeep.
  - repeat (apply Forall_cons; split); [..|done]; apply ensured_exists; set_solver.
Qed.

Example create_citation_database_keeps_populated :
  stored (create_citation_database (stored (create_citation_database populated)))
  = populated.
Proof. reflexivity. Qed.

(** C2. Under the Ignore policy, on an initialised store and for a record
    whose [uid] is a string: if a primary row with that [uid] is already
    stored the whole primary relation is left exactly as it was; writing
    the same record twice leaves the primary relation after the second call
    equal to what it was after the first; at most one primary row carries
    that [uid]; and a complete record is accepted both times. *)
Theorem insert_data_ignore_keeps_row (data : gmap string pyval) (db : database)
    (u : string) :
  schema_ok db → data !! "uid" = Some (PyStr u) →
  let first := insert_data data false db in
  let second := insert_data data false (stored first) in
  (PyStr u ∈ map uid_of (rows_of "results" db) →
     rows_of "results" (stored first) = rows_of "results" db) ∧
  rows_of "results" (stored second) = rows_of "results" (stored first) ∧
  (length (with_uid u (rows_of "results" (stored second))) ≤ 1)%nat ∧
  (complete data = true →
     fst first = Return tt ∧ fst second = Return tt ∧
     ∃ r, with_uid u (rows_of "results" (stored second)) = [r]).
Proof.
  intros Hok Huid first second.
  assert (uid_of (row_of data) = PyStr u) as Hu
    by (rewrite uid_of_row_of; unfold get; by rewrite Huid).
  pose proof (schema_ok_insert_data data false db Hok) as Hok1.
  pose proof (schema_ok_insert_data data false _ Hok1) as Hok2.
  fold first in Hok1, Hok2. fold second in Hok2.
  assert (length (with_uid u (rows_of "results" (stored second))) ≤ 1)%nat as Hlen.
  { destruct Hok2 as (rs & ks & cs & Hrs & _ & _ & _ & Hnd).
    unfold rows_of. rewrite Hrs. by apply with_uid_unique. }
  destruct (complete data) eqn:Hc.
  - subst second first.
    rewrite (insert_data_run data false db Hok Hc) in *.
    unfold stored in *. simpl snd in *. simpl disk in *.
    rewrite (insert_data_run data false _ Hok1 Hc) in *. simpl in Hlen |- *.
    rewrite !written_results in *.
    rewrite (put_row_ignore_again _ _ u Hu) in *.
    split_and!; [|done..|].
    + intros (r & Hr & Hin)%elem_of_map.
      apply (put_row_ignore_present _ _ u Hu). eauto.
    + intros _. split_and!; [done..|].
      destruct (put_row_member false (rows_of "results" db) (row_of data) u Hu)
        as (r & Hin & Hr).
      assert (r ∈ with_uid u (put_row false (rows_of "results" db) (row_of data)))
        as Hin' by (by apply list_elem_of_filter).
      destruct (with_uid u _) as [|r1 [|r2 l]].
      * by apply elem_of_nil in Hin'.
      * by exists r1.
      * simpl in Hlen. lia.
  - destruct (insert_data_incomplete data false db Hc) as (k & _ & _ & Hraise).
    subst second first. rewrite Hraise in *. unfold stored in *. simpl snd in *.
    simpl disk in *. rewrite Hraise in *. simpl in *. done.
Qed.

Lemma insert_data_ignore_keeps_row_witness :
  rows_of "results" (stored (insert_data sample_revised false populated))
  = rows_of "results" populated.
Proof.
  refine (proj1 (insert_data_ignore_keeps_row sample_revised populated "2021onca123" _ _) _).
  - schema_ok_closed populated.
  - by vm_compute.
  - by_evaluation.
Defined.

(** C3. Under the Update policy, on an initialised store, writing a
    complete record [A] and then a complete record [B] with the same string
    [uid] succeeds both times and leaves exactly one primary row for that
    [uid], equal to [B]'s tuple in every column (nothing of [A] survives);
    rows with other [uid]s are untouched; and when no row has that [uid]
    the write appends [B]'s tuple. *)
Theorem insert_data_update_replaces (A B : gmap string pyval) (db : database)
    (u : string) :
  schema_ok db → complete A = true → complete B = true →
  A !! "uid" = Some (PyStr u) → B !! "uid" = Some (PyStr u) →
  let first := insert_data A true db in
  let second := insert_data B true (stored first) in
  fst first = Return tt ∧ fst second = Return tt ∧
  with_uid u (rows_of "results" (stored second)) = [row_of B] ∧
  without_uid u (rows_of "results" (stored second))
    = without_uid u (rows_of "results" db) ∧
  (PyStr u ∉ map uid_of (rows_of "results" db) →
     fst (insert_data B true db) = Return tt ∧
     rows_of "results" (stored (insert_data B true db))
       = rows_of "results" db ++ [row_of B]).
Proof.
  intros Hok HA HB HuA HuB first second.
  assert (uid_of (row_of A) = PyStr u) as HaU
    by (rewrite uid_of_row_of; unfold get; by rewrite HuA).
  assert (uid_of (row_of B) = PyStr u) as HbU
    by (rewrite uid_of_row_of; unfold get; by rewrite HuB).
  pose proof (schema_ok_written A true db Hok) as Hok1.
  subst second first.
  rewrite (insert_data_run A true db Hok HA). unfold stored. simpl snd. simpl disk.
  rewrite (insert_data_run B true _ Hok1 HB), (insert_data_run B true db Hok HB).
  simpl. rewrite !written_results.
  split_and!; [done..| | |].
  - apply put_row_update_with_uid; [done|].
    apply put_row_unique.
    destruct Hok as (rs & ks & cs & Hrs & _ & _ & _ & Hnd).
    unfold rows_of. by rewrite Hrs.
  - by rewrite !(put_row_without_uid _ _ _ u).
  - intros Hfresh. split; [done|]. by apply (put_row_fresh _ _ _ u).
Qed.

Lemma insert_data_update_replaces_witness :
  with_uid "2021onca123"
    (rows_of "results"
       (stored (insert_data sample_revised true (stored (insert_data sample true initialised)))))
  = [row_of sample_revised].
Proof.
  refine (proj1 (proj2 (proj2
    (insert_data_update_replaces sample sample_revised initialised "2021onca123"
       _ _ _ _ _)))).
  - schema_ok_closed initialised.
  - by vm_compute.
  - by vm_compute.
  - by vm_compute.
  - by vm_compute.
Defined.

Example update_changes_fields :
  row_of sample_revised ≠ row_of sample.
Proof. by vm_compute. Qed.

(** A [None] [uid] is stored as [NULL], which the primary key does not
    take for a duplicate: such a record is inserted anew by every call. *)
Example insert_data_null_uid :
  rows_of "results"
    (stored (insert_data sample_anonymous false
       (stored (insert_data sample_anonymous false initialised))))
  = [row_of sample_anonymous; row_of sample_anonymous].
Proof. by vm_compute. Qed.

(** C1. For any [uid], on an initialised store, a complete record whose
    keyword string is "fraud — negligence — appeal" appends exactly the
    three rows (uid, fraud), (uid, negligence), (uid, appeal) to
    [keywords]; written a second time, the same three rows are appended
    again, the relation declaring nothing that [OR IGNORE] could act on.
    The same holds for the category string and [categories]. *)
Theorem insert_data_children_repeat (data : gmap string pyval)
    (update_existing : bool) (db : database) (uid : pyval) :
  schema_ok db → complete data = true → data !! "uid" = Some uid →
  data !! "keywords" = Some (PyStr "fraud — negligence — appeal") →
  data !! "categories" = Some (PyStr "fraud — negligence — appeal") →
  let three := [[uid; PyStr "fraud"]; [uid; PyStr "negligence"]; [uid; PyStr "appeal"]] in
  let first := stored (insert_data data update_existing db) in
  let second := stored (insert_data data update_existing first) in
  rows_of "keywords" first = rows_of "keywords" db ++ three ∧
  rows_of "keywords" second = rows_of "keywords" db ++ three ++ three ∧
  rows_of "categories" first = rows_of "categories" db ++ three ∧
  rows_of "categories" second = rows_of "categories" db ++ three ++ three.
Proof.
  intros Hok Hc Huid Hk Hcat three first second.
  pose proof (schema_ok_written data update_existing db Hok) as Hok1.
  subst second first.
  rewrite (insert_data_run data update_existing db Hok Hc). unfold stored. simpl snd.
  simpl disk. rewrite (insert_data_run data update_existing _ Hok1 Hc). simpl.
  rewrite !written_keywords, !written_categories.
  assert (child_rows data "keywords" = three) as ->
    by (unfold child_rows, get; rewrite Hk, Huid; reflexivity).
  assert (child_rows data "categories" = three) as ->
    by (unfold child_rows, get; rewrite Hcat, Huid; reflexivity).
  by rewrite <- !app_assoc.
Qed.

Lemma insert_data_children_repeat_witness :
  rows_of "keywords"
    (stored (insert_data sample_both false (stored (insert_data sample_both false initialised))))
  = [[PyStr "2021onca123"; PyStr "fraud"]; [PyStr "2021onca123"; PyStr "negligence"];
     [PyStr "2021onca123"; PyStr "appeal"];
     [PyStr "2021onca123"; PyStr "fraud"]; [PyStr "2021onca123"; PyStr "negligence"];
     [PyStr "2021onca123"; PyStr "appeal"]].
Proof.
  refine (proj1 (proj2
    (insert_data_children_repeat sample_both false initialised (PyStr "2021onca123")
       _ _ _ _ _))).
  - schema_ok_closed initialised.
  - by vm_compute.
  - by vm_compute.
  - by vm_compute.
  - by vm_compute.
Defined.

(** C9, as stated, fails: a call that raises leaves its connection open.
    Here the record has no key at all and the lookup of [uid] raises. *)
Lemma insert_data_leaks_on_error :
  insert_data ∅ false initialised = (Raise (KeyError "uid"), connect initialised) ∧
  is_open (snd (insert_data ∅ false initialised)) ≠ false.
Proof. split; by vm_compute. Qed.

(** The same on a failing statement: the store has no relation yet. *)
Example insert_data_leaks_on_statement_error :
  insert_data sample false ∅
  = (Raise (OperationalError "no such table: results"), connect ∅).
Proof. by vm_compute. Qed.

(** C9, amended. Every call works on a connection of its own, opened on
    the file as the call finds it. A call that returns has committed and
    closed it: the file then holds what the statements of the call made of
    the store, so on an initialised store and a complete record the call
    returns with the written rows in the file. A call that raises stops at
    the statement that raised: nothing is committed, the file is as it
    was, and the connection is left open. *)
Theorem insert_data_connection (data : gmap string pyval) (update_existing : bool)
    (db : database) :
  let statements := insert_data_statements data update_existing (connect db) in
  match insert_data data update_existing db with
  | (Return _, c) =>
      is_open c = false ∧ disk c = view c ∧
      fst statements = Return tt ∧ disk c = view (snd statements)
  | (Raise e, c) =>
      is_open c = true ∧ disk c = db ∧
      statements = (Raise e, c)
  end ∧
  (schema_ok db → complete data = true →
     insert_data data update_existing db
     = (Return tt,
        Conn (written data update_existing db) (written data update_existing db) false)).
Proof.
  intros statements. split; [|apply insert_data_run].
  pose proof (insert_data_outcome data update_existing db) as Hout.
  subst statements. revert Hout. unfold insert_data, insert_data_statements.
  set (primary := if update_existing then _ else _).
  unfold Eff.bind.
  destruct (primary (connect db)) as [[[]|e] c1]; [|by intros []].
  destruct (insert_children data "keywords" "keywords" keywords_columns c1)
    as [[[]|e] c2]; [|by intros []].
  destruct (insert_children data "categories" "categories" categories_columns c2)
    as [[[]|e] c3]; [|by intros []].
  unfold commit, close, Eff.modify. simpl. by intros [].
Qed.

(** C9 on the sample record and an initialised store: the call returns,
    the connection is closed and the file holds the row. *)
Lemma insert_data_connection_witness :
  insert_data sample false initialised
  = (Return tt, Conn (written sample false initialised)
                     (written sample false initialised) false) ∧
  rows_of "results" (written sample false initialised) = [row_of sample] ∧
  rows_of "results" initialised = [].
Proof.
  split; [|split; reflexivity].
  refine (proj2 (insert_data_connection sample false initialised) _ _).
  - schema_ok_closed initialised.
  - by vm_compute.
Defined.

(** C10. The primary tuple names sixteen keys. If one of them is missing
    from [data] the call raises [KeyError] (for the first missing one, in
    tuple order), whatever the store holds. The [keywords] and
    [categories] keys are optional: on an initialised store a complete
    record is accepted, and a field that is absent, [None] or empty adds
    no row to its relation. *)
Theorem insert_data_keys (data : gmap string pyval) (update_existing : bool)
    (db : database) :
  length results_columns = 16%nat ∧
  (∀ k, k ∈ results_columns → data !! k = None →
     ∃ k', k' ∈ results_columns ∧ data !! k' = None ∧
           fst (insert_data data update_existing db) = Raise (KeyError k')) ∧
  (schema_ok db → complete data = true →
     fst (insert_data data update_existing db) = Return tt ∧
     (truthy (get data "keywords") = false →
        rows_of "keywords" (stored (insert_data data update_existing db))
        = rows_of "keywords" db) ∧
     (truthy (get data "categories") = false →
        rows_of "categories" (stored (insert_data data update_existing db))
        = rows_of "categories" db)).
Proof.
  split_and!; [done| |].
  - intros k Hin Hnone.
    assert (complete data = false) as Hinc.
    { apply not_true_is_false. intros Hc. unfold complete in Hc.
      rewrite forallb_forall in Hc. apply list_elem_of_In, Hc in Hin.
      apply (bool_decide_eq_true_1 _) in Hin as [v Hv]. congruence. }
    destruct (insert_data_incomplete data update_existing db Hinc)
      as (k' & Hin' & Hnone' & ->).
    by exists k'.
  - intros Hok Hc. rewrite (insert_data_run data update_existing db Hok Hc).
    unfold stored. simpl. rewrite written_keywords, written_categories.
    assert (∀ field, truthy (get data field) = false → child_rows data field = [])
      as Hempty.
    { intros field. unfold child_rows. destruct (get data field); [done|].
      by intros ->. }
    split_and!; [done|..]; intros Hfalsy; by rewrite Hempty, app_nil_r.
Qed.

Lemma insert_data_keys_witness :
  (∃ k', k' ∈ results_columns ∧ delete "year" sample !! k' = None ∧
         fst (insert_data (delete "year" sample) true populated) = Raise (KeyError k')) ∧
  fst (insert_data sample_bare false populated) = Return tt ∧
  rows_of "keywords" (stored (insert_data sample_bare false populated))
  = rows_of "keywords" populated.
Proof.
  split.
  - refine (proj1 (proj2 (insert_data_keys (delete "year" sample) true populated))
              "year" _ _).
    + by_evaluation.
    + by vm_compute.
  - assert (schema_ok populated) as Hok by schema_ok_closed populated.
    assert (complete sample_bare = true) as Hc by (by vm_compute).
    destruct (proj2 (proj2 (insert_data_keys sample_bare false populated)) Hok Hc)
      as (Hret & Hkw & _).
    split; [exact Hret|]. apply Hkw. by vm_compute.
Defined.

(** ** Properties of [check_url] *)

(** C5, as stated, fails: 204 No Content is a successful status, and the
    url is not returned for it. *)
Lemma check_url_204 :
  successful 204 = true ∧
  fst (check_url (answering 204) "https://canlii.ca/t/x" []) = Return PyNone ∧
  ¬ check_url_as_stated (answering 204) "https://canlii.ca/t/x".
Proof.
  split_and!; [done..|].
  intros [[_ Hsucc] _].
  assert (fst (check_url (answering 204) "https://canlii.ca/t/x" [])
          = Return (PyStr "https://canlii.ca/t/x")) as H.
  { apply Hsucc. by exists (Response 204 None). }
  by vm_compute in H.
Qed.

(** Nor is the string "unresolvable" ever returned: the marker is [None]. *)
Example check_url_404 :
  fst (check_url (answering 404) "https://canlii.ca/t/x" []) = Return PyNone.
Proof. reflexivity. Qed.

(** C5, amended. [check_url] issues one GET. It returns the url exactly
    when the request is answered with status code 200; it returns [None]
    for every other status code and for every transport-level failure
    (timeout, DNS failure, connection refused, TLS error), none of which
    is raised to the caller. *)
Theorem check_url_total (E : env) (url : string) :
  snd (check_url E url []) = [Get url] ∧
  (fst (check_url E url []) = Return (PyStr url)
   ↔ ∃ resp, http_get E url = Return resp ∧ status_code resp = 200%Z) ∧
  (∀ resp, http_get E url = Return resp → status_code resp ≠ 200%Z →
     fst (check_url E url []) = Return PyNone) ∧
  (∀ f, http_get E url = Raise (RequestException f) →
     fst (check_url E url []) = Return PyNone).
Proof.
  unfold check_url, try_except_request, requests_get, Eff.bind, emit, Eff.modify,
    Eff.lift, Eff.ret. simpl.
  destruct (http_get E url) as [resp|e] eqn:Hget.
  - destruct (Z.eqb_spec (status_code resp) 200) as [Hs|Hs]; simpl.
    + split_and!; [done| |intros ? [= <-]; done|done].
      split; [|done]. intros _. by exists resp.
    + split_and!; [done| |done|done].
      split; [done|]. intros (resp' & [= <-] & ?). done.
  - destruct (is_request_exception e) eqn:He; simpl.
    + split_and!; [done| |done|done]. split; [done|]. by intros (? & ? & _).
    + split_and!; [done| |done|]; [split; [done|by intros (? & ? & _)]|].
      intros f [= ->]. done.
Qed.

Lemma check_url_total_witness :
  fst (check_url (answering 404) "https://canlii.ca/t/x" []) = Return PyNone ∧
  fst (check_url (failing DnsFailure) "https://canlii.ca/t/x" []) = Return PyNone.
Proof.
  split.
  - refine (proj1 (proj2 (proj2 (check_url_total (answering 404) "https://canlii.ca/t/x")))
              (Response 404 None) _ _); [reflexivity|by vm_compute].
  - refine (proj2 (proj2 (proj2 (check_url_total (failing DnsFailure) "https://canlii.ca/t/x")))
              DnsFailure _); reflexivity.
Defined.

(** ** The blocks of [canlii_api_call] *)

Lemma bind_ext {S A B} (m m' : Eff.M S A) (k k' : A → Eff.M S B) s :
  (∀ s, m s = m' s) → (∀ a s, k a s = k' a s) → Eff.bind m k s = Eff.bind m' k' s.
Proof.
  intros Hm Hk. unfold Eff.bind. rewrite Hm. destruct (m' s) as [[a|e] s']; [|done].
  apply Hk.
Qed.

Section call_blocks.

Variable E : env.
Variables case_id database_id legislation_id language : pyval.

Ltac block_cases :=
  unfold fetch, flags, endpoint, sources, assign, read,
    Eff.bind, Eff.lift, Eff.ret, requests_get, emit, Eff.modify, json_of;
  simpl;
  repeat (match goal with
          | |- context [match http_get E ?u with _ => _ end] =>
              destruct (http_get E u) as [[? [?|]]|?]; simpl
          | |- context [match item ?j ?k with _ => _ end] =>
              destruct (item j k); simpl
          end); reflexivity.

(** The function is its credential step followed by the five blocks. *)
Lemma canlii_api_call_blocks dm lm cc cg db trace :
  canlii_api_call E case_id database_id legislation_id language dm lm cc cg db trace
  = (let* API_KEY := resolve_api_key E in
     fetch_all E case_id database_id legislation_id language API_KEY
       (flags dm lm cc cg db) facets ∅) trace.
Proof.
  unfold canlii_api_call, facets, fetch_all.
  apply bind_ext; [done|]. intros key t0.
  apply bind_ext; [intros t; destruct dm; block_cases|]. intros i1 t1.
  apply bind_ext; [intros t; destruct cc; block_cases|]. intros i2 t2.
  apply bind_ext; [intros t; destruct cg; block_cases|]. intros i3 t3.
  apply bind_ext; [intros t; destruct lm; block_cases|]. intros i4 t4.
  apply bind_ext; [intros t; destruct db; block_cases|]. intros i5 t5.
  reflexivity.
Qed.

End call_blocks.

(** *** The five endpoints of one call are pairwise different *)

Lemma length_append (a b : string) :
  String.length (a +:+ b) = (String.length a + String.length b)%nat.
Proof. induction a as [|c a IH]; simpl; [done|]. by rewrite IH. Qed.

Lemma endpoint_inj case_id database_id legislation_id language key f g :
  endpoint case_id database_id legislation_id language f key
  = endpoint case_id database_id legislation_id language g key →
  f = g.
Proof.
  destruct f, g; try done; unfold endpoint; intros H; exfalso; simpl in H;
    try discriminate H;
    repeat (first [ discriminate H | injection H as H | apply String.app_inj in H ]);
    apply (f_equal String.length) in H; rewrite !length_append in H; simpl in H; lia.
Qed.

(** *** What the blocks request and what they store *)

Lemma keys_sources f : keys f = (sources f).*1.
Proof. by destruct f. Qed.

Lemma keys_disjoint f g : f ≠ g → Forall (λ k, k ∉ keys g) (keys f).
Proof. destruct f, g; try done; intros _; by_evaluation. Qed.

Lemma keys_NoDup f : NoDup (keys f).
Proof. destruct f; by_evaluation. Qed.

Lemma facets_NoDup : NoDup facets.
Proof. by_evaluation. Qed.

Lemma facets_all f : f ∈ facets.
Proof. destruct f; by_evaluation. Qed.

(** The assignments of a block store each key's source value and leave
    the other keys alone. *)
Lemma assign_result j : ∀ srcs info info',
  NoDup srcs.*1 → assign j srcs info = Return info' →
  (∀ k, k ∉ srcs.*1 → info' !! k = info !! k) ∧
  (∀ k source, (k, source) ∈ srcs → ∃ v, read j source = Return v ∧ info' !! k = Some v).
Proof.
  induction srcs as [|[k0 s0] srcs IH]; intros info info' Hnd Hassign; simpl in *.
  - injection Hassign as <-. split; [done|]. intros k source Hin. by apply elem_of_nil in Hin.
  - apply NoDup_cons in Hnd as [Hk0 Hnd].
    destruct (read j s0) as [v0|e] eqn:Hread; [|done].
    destruct (IH _ _ Hnd Hassign) as [Hother Hstored]. split.
    + intros k Hk. apply not_elem_of_cons in Hk as [Hne Hk].
      rewrite (Hother k Hk). by rewrite lookup_insert_ne.
    + intros k source Hin. apply elem_of_cons in Hin as [[= -> ->]|Hin].
      * exists v0. split; [done|]. rewrite (Hother k0 Hk0). apply lookup_insert_eq.
      * by apply Hstored.
Qed.

(** Assignments whose sources can all be read return. *)
Lemma assign_returns j : ∀ srcs info,
  (∀ k source, (k, source) ∈ srcs → returned (read j source)) →
  returned (assign j srcs info).
Proof.
  induction srcs as [|[k0 s0] srcs IH]; intros info Hread; simpl.
  - by exists info.
  - destruct (Hread k0 s0) as [v ->]; [by left|].
    apply IH. intros k source Hin. apply (Hread k). by right.
Qed.

Section blocks.

Variable E : env.
Variables case_id database_id legislation_id language : pyval.
Variable API_KEY : string.
Variable wanted : facet → bool.

Local Abbreviation url f := (endpoint case_id database_id legislation_id language f API_KEY).
Local Abbreviation block := (fetch E case_id database_id legislation_id language API_KEY wanted).
Local Abbreviation blocks := (fetch_all E case_id database_id legislation_id language API_KEY wanted).

(** A block that is not asked for does nothing; one that is asked for
    issues its request and then either raises or stores its keys. *)
Lemma fetch_skip f info trace :
  wanted f = false → block f info trace = (Return info, trace).
Proof. intros Hw. unfold fetch. by rewrite Hw. Qed.

Lemma fetch_run f info trace :
  wanted f = true →
  block f info trace
  = (match http_get E (url f) with
     | Return resp =>
         match json_of resp with
         | Return j => assign j (sources f) info
         | Raise e => Raise e
         end
     | Raise e => Raise e
     end, trace ++ [Get (url f)]).
Proof.
  intros Hw. unfold fetch. rewrite Hw.
  unfold Eff.bind, Eff.lift, requests_get, emit, Eff.modify. simpl.
  destruct (http_get E (url f)) as [resp|e]; [|done].
  by destruct (json_of resp).
Qed.

(** Requests are issued for wanted facets only, in block order; a call
    that returns has issued all of them. *)
Lemma fetch_all_trace : ∀ fs info trace,
  ∃ reached,
    snd (blocks fs info trace) = trace ++ map (λ f, Get (url f)) reached ∧
    reached `prefix_of` List.filter wanted fs ∧
    (returned (fst (blocks fs info trace)) → reached = List.filter wanted fs).
Proof.
  induction fs as [|f fs IH]; intros info trace; simpl.
  - exists []. by rewrite app_nil_r.
  - unfold Eff.bind. destruct (wanted f) eqn:Hw.
    + rewrite (fetch_run f info trace Hw).
      destruct (match http_get E (url f) with Return _ => _ | Raise _ => _ end)
        as [info1|e].
      * destruct (IH info1 (trace ++ [Get (url f)])) as (reached & -> & Hpre & Hret).
        exists (f :: reached). rewrite <- app_assoc. split_and!; [done| |].
        -- by apply prefix_cons.
        -- intros Hr. by rewrite (Hret Hr).
      * exists [f]. split_and!; [done| |by intros [? ?]].
        apply prefix_cons, prefix_nil.
    + rewrite (fetch_skip f info trace Hw). apply IH.
Qed.

(** What a returned dictionary holds. *)
Lemma fetch_all_result : ∀ fs info trace info',
  NoDup fs → fst (blocks fs info trace) = Return info' →
  (∀ k, (∀ f, f ∈ fs → wanted f = true → k ∉ keys f) → info' !! k = info !! k) ∧
  (∀ f, f ∈ fs → wanted f = true →
     ∃ resp j, http_get E (url f) = Return resp ∧ body resp = Some j ∧
       ∀ k source, (k, source) ∈ sources f →
         ∃ v, read j source = Return v ∧ info' !! k = Some v).
Proof.
  induction fs as [|f fs IH]; intros info trace info' Hnd Hret; simpl in Hret.
  - injection Hret as <-. split; [done|]. intros f Hin. by apply elem_of_nil in Hin.
  - apply NoDup_cons in Hnd as [Hf Hnd]. unfold Eff.bind in Hret.
    destruct (wanted f) eqn:Hw.
    + rewrite (fetch_run f info trace Hw) in Hret.
      destruct (http_get E (url f)) as [resp|e] eqn:Hget; [|done].
      unfold json_of in Hret. destruct (body resp) as [j|] eqn:Hbody; [|done].
      destruct (assign j (sources f) info) as [info1|e] eqn:Hassign; [|done].
      destruct (IH _ _ _ Hnd Hret) as [Hother Hstored].
      destruct (assign_result j (sources f) info info1) as [Hkeep Hset];
        [rewrite <- keys_sources; apply keys_NoDup|done|].
      split.
      * intros k Hk. rewrite Hother.
        -- apply Hkeep. rewrite <- keys_sources. apply Hk; [by left|done].
        -- intros g Hg. apply Hk. by right.
      * intros g Hg Hwg. apply elem_of_cons in Hg as [->|Hg]; [|by apply Hstored].
        exists resp, j. split_and!; [done..|].
        intros k source Hin. destruct (Hset k source Hin) as (v & Hread & Hv).
        exists v. split; [done|]. rewrite Hother; [done|].
        intros g Hg Hwg'. assert (f ≠ g) as Hne by (intros ->; done).
        pose proof (keys_disjoint f g Hne) as Hdis. rewrite Forall_forall in Hdis.
        apply Hdis. rewrite keys_sources. apply list_elem_of_fmap. by exists (k, source).
    + rewrite (fetch_skip f info trace Hw) in Hret.
      destruct (IH _ _ _ Hnd Hret) as [Hother Hstored]. split.
      * intros k Hk. apply Hother. intros g Hg. apply Hk. by right.
      * intros g Hg Hwg. apply elem_of_cons in Hg as [->|Hg]; [congruence|].
        by apply Hstored.
Qed.

(** When every wanted facet is answered with a document that holds the
    members its block reads, the blocks return. *)
Lemma fetch_all_returns : ∀ fs info trace,
  (∀ f, f ∈ fs → wanted f = true →
     ∃ resp j, http_get E (url f) = Return resp ∧ body resp = Some j ∧
       ∀ k source, (k, source) ∈ sources f → returned (read j source)) →
  returned (fst (blocks fs info trace)).
Proof.
  induction fs as [|f fs IH]; intros info trace Hall; simpl.
  - by exists info.
  - unfold Eff.bind. destruct (wanted f) eqn:Hw.
    + rewrite (fetch_run f info trace Hw).
      destruct (Hall f) as (resp & j & -> & Hbody & Hread); [by left|done|].
      unfold json_of. rewrite Hbody.
      destruct (assign_returns j (sources f) info Hread) as [info1 ->].
      apply IH. intros g Hg. apply Hall. by right.
    + rewrite (fetch_skip f info trace Hw).
      apply IH. intros g Hg. apply Hall. by right.
Qed.

(** A wanted facet whose request fails, or whose response does not
    decode, makes the blocks raise. *)
Lemma fetch_all_raises : ∀ fs info trace f,
  f ∈ fs → wanted f = true →
  match http_get E (url f) with
  | Return resp => body resp = None
  | Raise _ => True
  end →
  raised (fst (blocks fs info trace)).
Proof.
  induction fs as [|g fs IH]; intros info trace f Hin Hw Hbad.
  - by apply elem_of_nil in Hin.
  - simpl. unfold Eff.bind.
    destruct (block g info trace) as [[info1|e] t1] eqn:Hg; [|by exists e].
    apply elem_of_cons in Hin as [->|Hin]; [|by apply (IH _ _ f)].
    rewrite (fetch_run _ info trace Hw) in Hg.
    destruct (http_get E (url g)) as [resp|e]; [|done].
    unfold json_of in Hg. by rewrite Hbad in Hg.
Qed.

End blocks.

(** ** Properties of [canlii_api_call] *)

Lemma resolve_api_key_env E key trace :
  getenv E "CANLII_API_KEY" = Some key → resolve_api_key E trace = (Return key, trace).
Proof. intros H. unfold resolve_api_key. by rewrite H. Qed.

Lemma resolve_api_key_prompt E trace :
  getenv E "CANLII_API_KEY" = None →
  resolve_api_key E trace
  = (match stdin_line E with
     | Some line => if bool_decide (line = EmptyString) then Raise (SystemExit None) else Return line
     | None => Raise EOFError
     end, trace ++ prompt).
Proof.
  intros H. unfold resolve_api_key. rewrite H.
  unfold input. unfold Eff.bind, emit, Eff.modify, Eff.lift, Eff.ret, prompt.
  change (trace ++ [Stdout "Please enter your CanLII API key (or blank input to exit):"; Input])
    with (trace ++ [Stdout "Please enter your CanLII API key (or blank input to exit):"] ++ [Input]).
  rewrite app_assoc.
  destruct (stdin_line E) as [line|]; [|done]. simpl. by destruct (bool_decide (line = EmptyString)).
Qed.

(** Credential resolution issues no request and does not depend on what
    happened before. *)
Lemma resolve_api_key_trace E trace :
  ∃ asked, snd (resolve_api_key E trace) = trace ++ asked ∧ requests asked = [] ∧
           fst (resolve_api_key E trace) = fst (resolve_api_key E []) ∧
           (asked = [] ∨ asked = prompt).
Proof.
  destruct (getenv E "CANLII_API_KEY") as [key|] eqn:Henv.
  - exists []. rewrite !(resolve_api_key_env E key) by done. simpl.
    by rewrite app_nil_r; auto.
  - exists prompt. rewrite !resolve_api_key_prompt by done. simpl. auto.
Qed.

Lemma requests_app t1 t2 : requests (t1 ++ t2) = requests t1 ++ requests t2.
Proof. unfold requests. apply omap_app. Qed.

Lemma requests_gets (urls : list string) : requests (map Get urls) = urls.
Proof.
  induction urls as [|u urls IH]; [done|].
  unfold requests in *. rewrite map_cons, omap_cons_unfold. by rewrite IH.
Qed.

Section canlii_api_call_facts.

Variable E : env.
Variables case_id database_id legislation_id language : pyval.

Local Abbreviation url := (endpoint case_id database_id legislation_id language).
Local Abbreviation call := (canlii_api_call E case_id database_id legislation_id language).
Local Abbreviation blocks := (fetch_all E case_id database_id legislation_id language).

(** A call either stops at the credential step, or runs the blocks with
    the resolved key. *)
Lemma canlii_api_call_run dm lm cc cg db :
  match resolve_api_key E [] with
  | (Return key, asked) =>
      call dm lm cc cg db [] = blocks key (flags dm lm cc cg db) facets ∅ asked
  | (Raise e, asked) => call dm lm cc cg db [] = (Raise e, asked)
  end.
Proof.
  rewrite canlii_api_call_blocks. unfold Eff.bind.
  by destruct (resolve_api_key E []) as [[key|e] asked].
Qed.

(** The requests of a call: those of the wanted facets, for the resolved
    key, in block order, up to the block that raised if one did. *)
Lemma canlii_api_call_requests dm lm cc cg db :
  match fst (resolve_api_key E []) with
  | Return key =>
      ∃ reached,
        requests (snd (call dm lm cc cg db [])) = map (λ f, url f key) reached ∧
        reached `prefix_of` List.filter (flags dm lm cc cg db) facets ∧
        (returned (fst (call dm lm cc cg db [])) →
           reached = List.filter (flags dm lm cc cg db) facets)
  | Raise e =>
      requests (snd (call dm lm cc cg db [])) = [] ∧
      fst (call dm lm cc cg db []) = Raise e
  end.
Proof.
  pose proof (canlii_api_call_run dm lm cc cg db) as Hrun.
  destruct (resolve_api_key_trace E []) as (asked & Hsnd & Hreq & _ & _).
  destruct (resolve_api_key E []) as [[key|e] t0]; simpl in Hsnd; subst t0;
    rewrite Hrun; cbn [fst snd].
  - destruct (fetch_all_trace E case_id database_id legislation_id language key
                (flags dm lm cc cg db) facets ∅ asked) as (reached & Hsnd & Hpre & Hret).
    exists reached. split_and!; [|done..].
    rewrite Hsnd, requests_app, Hreq. simpl.
    rewrite <- (requests_gets (map _ reached)). by rewrite map_map.
  - done.
Qed.

Lemma elem_of_filter_bool {A} (p : A → bool) (l : list A) (x : A) :
  x ∈ List.filter p l ↔ x ∈ l ∧ p x = true.
Proof. by rewrite !list_elem_of_In, filter_In. Qed.

(** C4. A facet whose flag is not set has no request issued to its
    endpoint, and a returned dictionary has none of its keys. A call that
    returns has issued exactly one request per wanted facet, holds only
    keys of wanted facets, and holds under every key of a wanted facet the
    value read from that facet's own response. The call does return once
    the key is resolved and every wanted facet is answered with a document
    holding the members its block reads. The key sets of the five facets
    are pairwise disjoint. *)
Theorem canlii_api_call_facets (dm lm cc cg db : bool) :
  let wanted := flags dm lm cc cg db in
  let run := call dm lm cc cg db [] in
  (∀ f key, wanted f = false → fst (resolve_api_key E []) = Return key →
     url f key ∉ requests (snd run)) ∧
  (∀ info, fst run = Return info →
     ∃ key, fst (resolve_api_key E []) = Return key ∧
       requests (snd run) = map (λ f, url f key) (List.filter wanted facets) ∧
       (∀ f k, wanted f = false → k ∈ keys f → info !! k = None) ∧
       (∀ k, is_Some (info !! k) → ∃ f, wanted f = true ∧ k ∈ keys f) ∧
       (∀ f, wanted f = true →
          ∃ resp j, http_get E (url f key) = Return resp ∧ body resp = Some j ∧
            ∀ k source, (k, source) ∈ sources f →
              ∃ v, read j source = Return v ∧ info !! k = Some v)) ∧
  (∀ key, fst (resolve_api_key E []) = Return key →
     (∀ f, wanted f = true →
        ∃ resp j, http_get E (url f key) = Return resp ∧ body resp = Some j ∧
          ∀ k source, (k, source) ∈ sources f → returned (read j source)) →
     returned (fst run)) ∧
  (∀ f g k, k ∈ keys f → k ∈ keys g → f = g) ∧
  (∀ f, keys f = (sources f).*1).
Proof.
  intros wanted run.
  assert (∀ f g k, k ∈ keys f → k ∈ keys g → f = g) as Hdisjoint.
  { intros f g k Hf Hg. destruct (decide (f = g)) as [|Hne]; [done|].
    pose proof (keys_disjoint f g Hne) as Hdis. rewrite Forall_forall in Hdis.
    by destruct (Hdis k Hf). }
  split_and!; [| | |done|apply keys_sources]; cycle 2.
  - intros key Hkey Hall.
    pose proof (canlii_api_call_run dm lm cc cg db) as Hrun. fold run in Hrun.
    destruct (resolve_api_key E []) as [[key'|e] asked]; simpl in Hkey; [|done].
    injection Hkey as ->. rewrite Hrun.
    apply fetch_all_returns. intros f _ Hw. by apply Hall.
  - intros f key Hw Hkey Hin.
    pose proof (canlii_api_call_requests dm lm cc cg db) as Hreq.
    rewrite Hkey in Hreq. destruct Hreq as (reached & Hreq & Hpre & _).
    fold run in Hreq. rewrite Hreq in Hin.
    apply elem_of_map in Hin as (g & Hurl & Hg).
    apply endpoint_inj in Hurl as ->.
    destruct Hpre as [rest Hrest].
    assert (g ∈ List.filter wanted facets) as Hin'
      by (unfold wanted; rewrite Hrest; apply elem_of_app; by left).
    apply elem_of_filter_bool in Hin' as [_ Hw']. congruence.
  - intros info Hret.
    pose proof (canlii_api_call_requests dm lm cc cg db) as Hreq.
    pose proof (canlii_api_call_run dm lm cc cg db) as Hrun.
    fold run in Hreq, Hrun.
    destruct (resolve_api_key E []) as [[key|e] asked]; simpl in Hreq;
      [|destruct Hreq as [_ Hraise]; congruence].
    exists key. split; [done|].
    destruct Hreq as (reached & Hreq & _ & Hall).
    rewrite (Hall (ex_intro _ info Hret)) in Hreq.
    rewrite Hrun in Hret.
    destruct (fetch_all_result E case_id database_id legislation_id language key wanted
                facets ∅ asked info facets_NoDup Hret) as [Hother Hstored].
    assert (∀ k, is_Some (info !! k) → ∃ f, wanted f = true ∧ k ∈ keys f) as Hdom.
    { intros k [v Hv].
      destruct (decide (Exists (λ f, wanted f = true ∧ k ∈ keys f) facets)) as [Hex|Hno].
      - apply Exists_exists in Hex as (f & _ & Hf). by exists f.
      - rewrite Hother in Hv; [by rewrite lookup_empty in Hv|].
        intros f Hf Hw Hk. apply Hno, Exists_exists. by exists f. }
    split_and!; [done| |done|].
    + intros f k Hw Hk. destruct (info !! k) as [v|] eqn:Hv; [|done].
      destruct (Hdom k (ex_intro _ v Hv)) as (g & Hwg & Hkg).
      assert (f = g) as -> by (by apply (Hdisjoint f g k)). congruence.
    + intros f Hw. apply Hstored; [apply facets_all|done].
Qed.

(** C6, amended. A wanted facet whose request fails in transport, or
    whose response body is not well-formed JSON, makes the call raise: no
    dictionary is returned. The status code of a response is never looked
    at: with any status code put in place of the ones received, the call
    does exactly the same. *)
Theorem canlii_api_call_faults (dm lm cc cg db : bool) :
  (∀ f, flags dm lm cc cg db f = true →
     (∀ key, fst (resolve_api_key E []) = Return key →
        match http_get E (url f key) with
        | Return resp => body resp = None
        | Raise _ => True
        end) →
     raised (fst (call dm lm cc cg db []))) ∧
  (∀ status,
     canlii_api_call (with_status status E) case_id database_id legislation_id language
       dm lm cc cg db []
     = call dm lm cc cg db []).
Proof.
  split.
  - intros f Hw Hbad.
    pose proof (canlii_api_call_run dm lm cc cg db) as Hrun.
    destruct (resolve_api_key E []) as [[key|e] asked]; rewrite Hrun; [|by exists e].
    apply (fetch_all_raises _ _ _ _ _ _ _ _ _ _ f); [apply facets_all|done|by apply Hbad].
  - intros status. rewrite !canlii_api_call_blocks.
    apply bind_ext; [done|]. intros key t0.
    generalize (∅ : gmap string json). generalize t0.
    induction facets as [|f fs IH]; intros t info; [done|].
    simpl. apply bind_ext; [|intros info1 t1; apply IH].
    intros t'. unfold fetch. destruct (flags dm lm cc cg db f); [|done].
    unfold Eff.bind, requests_get, emit, Eff.modify, Eff.lift, with_status. simpl.
    by destruct (http_get E (url f key)).
Qed.

(** C7, amended. A key found in the environment is used as it is and
    nothing is printed or read. Without one, the prompt is printed and a
    line is read from the console; a non-empty line is used as the key. An
    empty line makes the call raise [SystemExit] with no exit code before
    any request is issued: left uncaught this ends the process with exit
    status 0. *)
Theorem canlii_api_call_credential (dm lm cc cg db : bool) :
  (∀ key, getenv E "CANLII_API_KEY" = Some key →
     call dm lm cc cg db [] = blocks key (flags dm lm cc cg db) facets ∅ [] ∧
     ∃ urls, snd (call dm lm cc cg db []) = map Get urls) ∧
  (getenv E "CANLII_API_KEY" = None →
     (∀ line, stdin_line E = Some line → line ≠ EmptyString →
        call dm lm cc cg db [] = blocks line (flags dm lm cc cg db) facets ∅ prompt) ∧
     (stdin_line E = Some EmptyString →
        call dm lm cc cg db [] = (Raise (SystemExit None), prompt) ∧
        exit_status (fst (call dm lm cc cg db [])) = 0%Z)).
Proof.
  pose proof (canlii_api_call_run dm lm cc cg db) as Hrun.
  split.
  - intros key Henv. rewrite (resolve_api_key_env E key [] Henv) in Hrun.
    split; [done|]. rewrite Hrun.
    destruct (fetch_all_trace E case_id database_id legislation_id language key
                (flags dm lm cc cg db) facets ∅ []) as (reached & -> & _).
    exists (map (λ f, url f key) reached). by rewrite map_map.
  - intros Henv. rewrite (resolve_api_key_prompt E [] Henv) in Hrun. split.
    + intros line Hline Hne. rewrite Hline in Hrun.
      by rewrite bool_decide_eq_false_2 in Hrun.
    + intros Hline. rewrite Hline in Hrun. simpl in Hrun. by rewrite Hrun.
Qed.

End canlii_api_call_facts.

(** C4 on the sample case: only the decision metadata is asked for. The
    call returns, and the cited cases are not requested. *)
Lemma canlii_api_call_facets_witness :
  returned (fst (canlii_api_call (serving 200 sample_metadata)
                   (PyStr "2021onca123") (PyStr "onca") PyNone (PyStr "en")
                   true false false false false [])) ∧
  "https://api.canlii.org/v1/caseCitator/en/onca/2021onca123/citedCases?api_key=k"
  ∉ requests (snd (canlii_api_call (serving 200 sample_metadata)
                     (PyStr "2021onca123") (PyStr "onca") PyNone (PyStr "en")
                     true false false false false [])).
Proof.
  split.
  - refine (proj1 (proj2 (proj2
      (canlii_api_call_facets (serving 200 sample_metadata)
         (PyStr "2021onca123") (PyStr "onca") PyNone (PyStr "en")
         true false false false false))) "k" _ _); [reflexivity|].
    intros f Hw. destruct f; try discriminate Hw.
    eexists _, _. split_and!; [reflexivity..|].
    intros k source Hin. simpl in Hin.
    repeat (apply elem_of_cons in Hin as [[= -> ->]|Hin]; [by eexists|]).
    by apply elem_of_nil in Hin.
  - refine (proj1 (canlii_api_call_facets (serving 200 sample_metadata)
                     (PyStr "2021onca123") (PyStr "onca") PyNone (PyStr "en")
                     true false false false false) CasesCited "k" _ _); reflexivity.
Defined.

Example canlii_api_call_sample :
  canlii_api_call (serving 200 sample_metadata)
    (PyStr "2021onca123") (PyStr "onca") PyNone (PyStr "en")
    true false false false false []
  = (Return (<["categories" := JString "criminal — evidence"]>
            (<["keywords" := JString "fraud — appeal"]>
            (<["decision_date" := JString "2021-03-01"]>
            (<["docket_number" := JString "C12345"]>
            (<["language" := JString "en"]>
            (<["short_url" := JString "https://canlii.ca/t/x"]> ∅)))))),
     [Get "https://api.canlii.org/v1/caseBrowse/en/onca/2021onca123/?api_key=k"]).
Proof. reflexivity. Qed.

(** C6, as stated, fails: the service answers the cited-cases request with
    status 500 and an error document, and the call returns a dictionary
    holding that document. *)
Lemma canlii_api_call_500 :
  successful 500 = false ∧
  canlii_api_call (serving 500 error_document)
    (PyStr "2021onca123") (PyStr "onca") PyNone (PyStr "en")
    false false true false false []
  = (Return {[ "cited_cases" := error_document ]},
     [Get "https://api.canlii.org/v1/caseCitator/en/onca/2021onca123/citedCases?api_key=k"]) ∧
  ¬ raised (fst (canlii_api_call (serving 500 error_document)
                   (PyStr "2021onca123") (PyStr "onca") PyNone (PyStr "en")
                   false false true false false [])).
Proof.
  assert (canlii_api_call (serving 500 error_document)
            (PyStr "2021onca123") (PyStr "onca") PyNone (PyStr "en")
            false false true false false []
          = (Return {[ "cited_cases" := error_document ]},
             [Get "https://api.canlii.org/v1/caseCitator/en/onca/2021onca123/citedCases?api_key=k"]))
    as Hrun by reflexivity.
  split_and!; [done|exact Hrun|].
  rewrite Hrun. intros [e He]. discriminate He.
Qed.

Lemma canlii_api_call_faults_witness :
  raised (fst (canlii_api_call garbling
                 (PyStr "2021onca123") (PyStr "onca") PyNone (PyStr "en")
                 true false true false false [])).
Proof.
  refine (proj1 (canlii_api_call_faults garbling
                   (PyStr "2021onca123") (PyStr "onca") PyNone (PyStr "en")
                   true false true false false) CasesCited _ _).
  - reflexivity.
  - intros key _. reflexivity.
Defined.

(** C7, as stated, fails: an empty line at the prompt ends the call with
    [SystemExit] carrying no code, which is exit status 0. *)
Lemma canlii_api_call_blank_exit :
  canlii_api_call (typing EmptyString sample_metadata)
    (PyStr "2021onca123") (PyStr "onca") PyNone (PyStr "en")
    true false false false false []
  = (Raise (SystemExit None), prompt) ∧
  ¬ (exit_status (fst (canlii_api_call (typing EmptyString sample_metadata)
                         (PyStr "2021onca123") (PyStr "onca") PyNone (PyStr "en")
                         true false false false false [])) ≠ 0%Z).
Proof. split; [by vm_compute|]. intros H. by apply H. Qed.

Lemma canlii_api_call_credential_witness :
  canlii_api_call (typing "secret" sample_metadata)
    (PyStr "2021onca123") (PyStr "onca") PyNone (PyStr "en")
    true false false false false []
  = fetch_all (typing "secret" sample_metadata)
      (PyStr "2021onca123") (PyStr "onca") PyNone (PyStr "en") "secret"
      (flags true false false false false) facets ∅ prompt.
Proof.
  refine (proj1 (proj2 (canlii_api_call_credential (typing "secret" sample_metadata)
                          (PyStr "2021onca123") (PyStr "onca") PyNone (PyStr "en")
                          true false false false false) _) "secret" _ _).
  - reflexivity.
  - reflexivity.
  - by vm_compute.
Defined.

(** * Further properties *)

(** ** Strings *)

Lemma append_cons c (a b : string) : String c a +:+ b = String c (a +:+ b).
Proof. reflexivity. Qed.

Lemma append_nil_r (s : string) : s +:+ EmptyString = s.
Proof. induction s as [|c s IH]; [done|]. by rewrite append_cons, IH. Qed.

Lemma append_assoc (a b c : string) : (a +:+ b) +:+ c = a +:+ b +:+ c.
Proof. induction a as [|x a IH]; [done|]. by rewrite !append_cons, IH. Qed.

Lemma prefix_split (p s : string) :
  String.prefix p s = true ↔ ∃ rest, s = p +:+ rest.
Proof.
  revert p. induction s as [|c' s IH]; intros [|c p]; simpl.
  - split; [by exists EmptyString|done].
  - split; [done|]. intros [rest H]. by rewrite append_cons in H.
  - split; [|done]. intros _. by exists (String c' s).
  - destruct (Ascii.ascii_dec c c') as [->|Hne].
    + rewrite IH. split; intros [rest H]; exists rest.
      * by rewrite append_cons, H.
      * rewrite append_cons in H. by injection H.
    + split; [done|]. intros [rest H]. rewrite append_cons in H.
      injection H as ? ?. congruence.
Qed.

(** Stepping over the rest of a matched separator. *)
Lemma split_scan_skip sep cur : ∀ p rest,
  split_scan sep (String.length p) cur (p +:+ rest) = split_scan sep 0 cur rest.
Proof.
  induction p as [|c p IH]; intros rest.
  - done.
  - rewrite append_cons. simpl. apply IH.
Qed.

Lemma split_scan_nonempty sep : ∀ s skip cur, split_scan sep skip cur s ≠ [].
Proof.
  induction s as [|c s IH]; intros skip cur; cbn [split_scan]; [done|].
  destruct skip; [|apply IH].
  destruct (String.prefix sep (String c s)); [intros H; discriminate H|apply IH].
Qed.

Lemma join_cons sep x rest :
  rest ≠ [] → join sep (x :: rest) = x +:+ sep +:+ join sep rest.
Proof. by destruct rest. Qed.

(** Joining the tokens with the separator gives the string back. *)
Lemma split_scan_join sep : sep ≠ EmptyString →
  ∀ n s cur, (String.length s ≤ n)%nat → join sep (split_scan sep 0 cur s) = cur +:+ s.
Proof.
  intros Hsep. induction n as [|n IH]; intros s cur Hlen.
  - destruct s; [|simpl in Hlen; lia]. simpl. by rewrite append_nil_r.
  - destruct s as [|c s']; [simpl; by rewrite append_nil_r|].
    cbn [split_scan]. destruct (String.prefix sep (String c s')) eqn:Hpre.
    + apply prefix_split in Hpre as [rest Hrest].
      destruct sep as [|c0 sep']; [done|]. rewrite append_cons in Hrest.
      injection Hrest as -> ->.
      cbn [String.length]. rewrite Nat.sub_1_r. cbn [Nat.pred].
      rewrite split_scan_skip, join_cons by apply split_scan_nonempty.
      rewrite IH by (simpl in Hlen; rewrite length_append in Hlen; lia). done.
    + rewrite IH by (simpl in Hlen; lia). by rewrite append_assoc, append_cons.
Qed.

Lemma append_eq_length : ∀ (a b x y : string),
  a +:+ x = b +:+ y → String.length a = String.length b → a = b ∧ x = y.
Proof.
  induction a as [|c a IH]; intros [|c' b] x y Heq Hlen; simpl in Hlen; try done.
  rewrite !append_cons in Heq. injection Heq as -> Heq.
  destruct (IH b x y Heq) as [-> ->]; [lia|done].
Qed.

(** A string in which the separator does not occur is one token. *)
Lemma split_scan_plain sep : ∀ s cur,
  ¬ contains sep s → split_scan sep 0 cur s = [cur +:+ s].
Proof.
  induction s as [|c s IH]; intros cur Hfree; cbn [split_scan].
  - by rewrite append_nil_r.
  - destruct (String.prefix sep (String c s)) eqn:Hpre.
    + exfalso. apply Hfree. apply prefix_split in Hpre as [rest ->].
      by exists EmptyString, rest.
    + rewrite IH; [by rewrite append_assoc, append_cons|].
      intros (a & b & ->). apply Hfree. exists (String c a), b. by rewrite append_cons.
Qed.

(** No token holds the separator. [cur] is the token under construction:
    no occurrence of the separator in [cur +:+ s] starts inside it. *)
Lemma split_scan_tokens sep : sep ≠ EmptyString →
  ∀ n s cur, (String.length s ≤ n)%nat →
    (∀ a b, cur +:+ s = a +:+ sep +:+ b → (String.length cur ≤ String.length a)%nat) →
    Forall (λ t, ¬ contains sep t) (split_scan sep 0 cur s).
Proof.
  intros Hsep.
  assert (0 < String.length sep)%nat as Hpos by (destruct sep; [done|simpl; lia]).
  assert (∀ cur s,
            (∀ a b, cur +:+ s = a +:+ sep +:+ b → (String.length cur ≤ String.length a)%nat) →
            ¬ contains sep cur) as Hcur.
  { intros cur s Hinv (a & b & Hab).
    specialize (Hinv a (b +:+ s)).
    rewrite Hab, !append_assoc in Hinv. specialize (Hinv eq_refl).
    rewrite !length_append in Hinv. lia. }
  induction n as [|n IH]; intros s cur Hlen Hinv.
  - destruct s; [|simpl in Hlen; lia]. cbn [split_scan].
    apply Forall_singleton. by apply (Hcur cur EmptyString).
  - destruct s as [|c s']; [apply Forall_singleton; by apply (Hcur cur EmptyString)|].
    cbn [split_scan]. destruct (String.prefix sep (String c s')) eqn:Hpre.
    + apply Forall_cons. split; [by apply (Hcur cur (String c s'))|].
      apply prefix_split in Hpre as [rest Hrest].
      destruct sep as [|c0 sep']; [done|]. rewrite append_cons in Hrest.
      injection Hrest as -> ->.
      cbn [String.length]. rewrite Nat.sub_1_r. cbn [Nat.pred].
      rewrite split_scan_skip. apply IH.
      * simpl in Hlen. rewrite length_append in Hlen. lia.
      * intros a b _. simpl. lia.
    + apply IH; [simpl in Hlen; lia|].
      intros a b Hab. rewrite append_assoc, append_cons in Hab. simpl in Hab.
      pose proof (Hinv a b Hab) as Hle. rewrite length_append. simpl.
      destruct (decide (String.length cur = String.length a)) as [Heq|Hne]; [|lia].
      exfalso. destruct (append_eq_length cur a _ _ Hab Heq) as [_ Hs].
      assert (String.prefix sep (String c s') = true) as Htrue
        by (apply prefix_split; by exists b).
      congruence.
Qed.

Lemma occurs_contains sep s : occurs sep s = true ↔ contains sep s.
Proof.
  induction s as [|c s IH]; cbn [occurs]; rewrite orb_true_iff.
  - split.
    + intros [Hpre|?]; [|done]. apply prefix_split in Hpre as [rest Hrest].
      by exists EmptyString, rest.
    + intros (a & b & Hab). left. apply prefix_split.
      destruct a; [by exists b|by rewrite append_cons in Hab].
  - rewrite IH. split.
    + intros [Hpre|(a & b & ->)].
      * apply prefix_split in Hpre as [rest Hrest]. by exists EmptyString, rest.
      * exists (String c a), b. by rewrite append_cons.
    + intros (a & b & Hab). destruct a as [|c' a].
      * left. apply prefix_split. by exists b.
      * right. rewrite append_cons in Hab. injection Hab as -> ->. by exists a, b.
Qed.

(** ** Decomposition of the delimited fields *)

Lemma written_children data update_existing db field :
  field ∈ ["keywords"; "categories"] →
  rows_of field (written data update_existing db)
  = rows_of field db ++ child_rows data field.
Proof.
  rewrite !elem_of_cons. intros [->|[->|Hin]].
  - apply written_keywords.
  - apply written_categories.
  - by apply elem_of_nil in Hin.
Qed.

Lemma child_rows_str data field s :
  data !! field = Some (PyStr s) → s ≠ EmptyString →
  child_rows data field
  = map (λ item, [get data "uid"; PyStr item]) (split_scan delimiter 0 EmptyString s).
Proof.
  intros Hfield Hs. unfold child_rows, get. rewrite Hfield. by destruct s.
Qed.

(** X1. On an initialised store, a complete record with a non-empty
    keyword (or category) string adds at least one child row, one per
    token in order, and the tokens joined with the delimiter are the string
    that was given. *)
Theorem insert_data_children_join (data : gmap string pyval) (update_existing : bool)
    (db : database) (field s : string) :
  schema_ok db → complete data = true →
  field ∈ ["keywords"; "categories"] →
  data !! field = Some (PyStr s) → s ≠ EmptyString →
  ∃ items,
    items ≠ [] ∧ join delimiter items = s ∧
    rows_of field (stored (insert_data data update_existing db))
    = rows_of field db ++ map (λ item, [get data "uid"; PyStr item]) items.
Proof.
  intros Hok Hc Hfield Hs Hne.
  exists (split_scan delimiter 0 EmptyString s). split_and!.
  - apply split_scan_nonempty.
  - by rewrite (split_scan_join delimiter ltac:(done) (String.length s)).
  - rewrite (insert_data_run data update_existing db Hok Hc). unfold stored. simpl.
    by rewrite written_children, (child_rows_str data field s).
Qed.

Lemma insert_data_children_join_witness :
  ∃ items,
    items ≠ [] ∧ join delimiter items = "fraud — negligence — appeal" ∧
    rows_of "keywords" (stored (insert_data sample true populated))
    = rows_of "keywords" populated
      ++ map (λ item, [get sample "uid"; PyStr item]) items.
Proof.
  refine (insert_data_children_join sample true populated "keywords"
            "fraud — negligence — appeal" _ _ _ _ _).
  - schema_ok_closed populated.
  - by vm_compute.
  - by_evaluation.
  - by vm_compute.
  - by vm_compute.
Defined.

(** X2. No child row holds the delimiter: every keyword (or category)
    stored by a call is free of it. A non-empty string in which the
    delimiter does not occur is stored whole, as a single row. *)
Theorem insert_data_children_delimiter_free (data : gmap string pyval)
    (update_existing : bool) (db : database) (field s : string) :
  schema_ok db → complete data = true →
  field ∈ ["keywords"; "categories"] →
  data !! field = Some (PyStr s) → s ≠ EmptyString →
  (∃ items,
     Forall (λ item, occurs delimiter item = false) items ∧
     rows_of field (stored (insert_data data update_existing db))
     = rows_of field db ++ map (λ item, [get data "uid"; PyStr item]) items) ∧
  (occurs delimiter s = false →
     rows_of field (stored (insert_data data update_existing db))
     = rows_of field db ++ [[get data "uid"; PyStr s]]).
Proof.
  intros Hok Hc Hfield Hs Hne.
  rewrite (insert_data_run data update_existing db Hok Hc). unfold stored. simpl.
  rewrite written_children, (child_rows_str data field s) by done. split.
  - exists (split_scan delimiter 0 EmptyString s). split; [|done].
    eapply Forall_impl.
    + apply (split_scan_tokens delimiter ltac:(done) (String.length s)); [done|].
      intros a b _. simpl. lia.
    + intros item Hfree. simpl in Hfree. apply not_true_is_false.
      by rewrite occurs_contains.
  - intros Hplain. rewrite split_scan_plain; [done|].
    rewrite <- occurs_contains. by rewrite Hplain.
Qed.

(** The sample record with a single keyword. *)
Lemma insert_data_children_delimiter_free_witness :
  rows_of "keywords"
    (stored (insert_data (<["keywords" := PyStr "fraud"]> sample) false initialised))
  = [[PyStr "2021onca123"; PyStr "fraud"]].
Proof.
  refine (proj2 (insert_data_children_delimiter_free
                   (<["keywords" := PyStr "fraud"]> sample) false initialised
                   "keywords" "fraud" _ _ _ _ _) _).
  - schema_ok_closed initialised.
  - by vm_compute.
  - by_evaluation.
  - by vm_compute.
  - by vm_compute.
  - by vm_compute.
Defined.

(** ** What the writer never does *)

Lemma table_grows_refl strict t : table_grows strict t t.
Proof. by unfold table_grows. Qed.

Lemma table_grows_trans strict t1 t2 t3 :
  table_grows strict t1 t2 → table_grows strict t2 t3 → table_grows strict t1 t3.
Proof.
  intros (Hc1 & Hk1 & Hl1 & Hp1) (Hc2 & Hk2 & Hl2 & Hp2).
  split_and!; [congruence|congruence|lia|].
  intros Hs. etrans; [by apply Hp1|by apply Hp2].
Qed.

Lemma grows_refl strict db : grows strict db db.
Proof. intros name t Ht. exists t. split; [done|apply table_grows_refl]. Qed.

Lemma grows_trans strict db1 db2 db3 :
  grows strict db1 db2 → grows strict db2 db3 → grows strict db1 db3.
Proof.
  intros H12 H23 name t1 Ht1.
  destruct (H12 name t1 Ht1) as (t2 & Ht2 & Hg12).
  destruct (H23 name t2 Ht2) as (t3 & Ht3 & Hg23).
  exists t3. split; [done|by eapply table_grows_trans].
Qed.

Lemma insert_into_grows strict oc t new t' :
  insert_into oc t new = Return t' →
  (oc = OrIgnore ∨ strict = false) →
  table_grows strict t t'.
Proof.
  unfold insert_into. intros Hins Hoc.
  destruct (existsb _ _).
  - destruct oc as [|target set].
    + injection Hins as <-. apply table_grows_refl.
    + injection Hins as <-. destruct Hoc as [Hoc | ->]; [done|].
      split_and!; simpl; [done..|by rewrite length_map|done].
  - injection Hins as <-. split_and!; simpl; [done..|rewrite length_app; lia|].
    intros _. by apply prefix_app_r.
Qed.

(** A statement removes no table, alters no schema and deletes no row;
    only an upsert rewrites rows, and only in its own table. *)
Lemma exec_grows strict st db db' :
  exec st db = Return db' →
  (∀ target set name cols vals,
     st = Insert (DoUpdate target set) name cols vals → strict name = false) →
  grows strict db db' ∧ (∀ name, is_Some (db' !! name) → is_Some (db !! name) ∨
                           ∃ cols key, st = CreateTableIfNotExists name cols key).
Proof.
  intros Hexec Hstrict. destruct st as [name cols key|oc name cols vals]; simpl in Hexec.
  - destruct (db !! name) eqn:Hname; injection Hexec as <-.
    + split; [apply grows_refl|]. intros n Hn. by left.
    + split.
      * intros n t Ht. exists t. split; [|apply table_grows_refl].
        rewrite lookup_insert_ne; [done|]. intros ->. congruence.
      * intros n Hn. destruct (decide (name = n)) as [->|Hne]; [right; eauto|].
        left. by rewrite lookup_insert_ne in Hn.
  - destruct (db !! name) as [t|] eqn:Hname; [|done].
    destruct (unknown_column t cols); [done|].
    destruct (negb (target_ok oc t)); [done|].
    destruct (unknown_column t (set_of oc)); [done|].
    destruct (insert_into oc t (bind_columns t cols vals)) as [t'|e] eqn:Hins; [|done].
    injection Hexec as <-. split.
    + intros n t0 Ht0. destruct (decide (name = n)) as [->|Hne].
      * rewrite lookup_insert_eq. exists t'. split; [done|].
        assert (t0 = t) as -> by congruence.
        apply (insert_into_grows _ oc _ (bind_columns t cols vals)); [done|].
        destruct oc as [|target set]; [by left|right]. by eapply Hstrict.
      * rewrite lookup_insert_ne by done. exists t0. split; [done|apply table_grows_refl].
    + intros n Hn. left. destruct (decide (name = n)) as [->|Hne]; [by rewrite Hname|].
      by rewrite lookup_insert_ne in Hn.
Qed.

Section tracking.

Variable R : database → database → Prop.
Hypothesis R_refl : ∀ db, R db db.
Hypothesis R_trans : ∀ db1 db2 db3, R db1 db2 → R db2 db3 → R db1 db3.

Lemma tracks_ret {A} (a : A) : tracks R (Eff.ret a).
Proof. intros c. apply R_refl. Qed.

Lemma tracks_lift {A} (r : result A) : tracks R (Eff.lift r).
Proof. intros c. apply R_refl. Qed.

Lemma tracks_execute st :
  (∀ db db', exec st db = Return db' → R db db') → tracks R (execute st).
Proof.
  intros Hst c. unfold execute. destruct (exec st (view c)) as [db'|e] eqn:Hexec; simpl.
  - by apply Hst.
  - apply R_refl.
Qed.

Lemma tracks_bind {A B} (m : Eff.M conn A) (k : A → Eff.M conn B) :
  tracks R m → (∀ a, tracks R (k a)) → tracks R (Eff.bind m k).
Proof.
  intros Hm Hk c. unfold Eff.bind. pose proof (Hm c) as H1.
  destruct (m c) as [[a|e] c']; simpl in *; [|done].
  eapply R_trans; [exact H1|apply Hk].
Qed.

Lemma tracks_for_each {A} (xs : list A) (body : A → Eff.M conn unit) :
  (∀ x, tracks R (body x)) → tracks R (Eff.for_each xs body).
Proof.
  intros Hbody. induction xs as [|x xs IH]; simpl.
  - apply tracks_ret.
  - apply tracks_bind; [apply Hbody|]. by intros _.
Qed.

End tracking.

Lemma grows_within_refl strict db : grows_within strict db db.
Proof. split; [apply grows_refl|done]. Qed.

Lemma grows_within_trans strict db1 db2 db3 :
  grows_within strict db1 db2 → grows_within strict db2 db3 → grows_within strict db1 db3.
Proof.
  intros [Hg1 Hd1] [Hg2 Hd2]. split; [by eapply grows_trans|].
  intros name H3. by apply Hd1, Hd2.
Qed.

Lemma exec_insert_grows_within strict oc name cols vals db db' :
  (oc = OrIgnore ∨ strict name = false) →
  exec (Insert oc name cols vals) db = Return db' → grows_within strict db db'.
Proof.
  intros Hoc Hexec.
  destruct (exec_grows strict _ _ _ Hexec) as [Hg Hd].
  - intros target set n cols' vals' [= -> -> _ _]. by destruct Hoc.
  - split; [done|]. intros n Hn. by destruct (Hd n Hn) as [?|(? & ? & ?)].
Qed.

Lemma tracks_insert_children strict data field name cols :
  tracks (grows_within strict) (insert_children data field name cols).
Proof.
  unfold insert_children. destruct (truthy _);
    [|apply tracks_ret, grows_within_refl].
  apply tracks_bind; [apply grows_within_trans|apply tracks_lift, grows_within_refl|].
  intros v.
  apply tracks_bind; [apply grows_within_trans|apply tracks_lift, grows_within_refl|].
  intros items. apply tracks_for_each; [apply grows_within_refl|apply grows_within_trans|].
  intros item.
  apply tracks_bind; [apply grows_within_trans|apply tracks_lift, grows_within_refl|].
  intros uid. apply tracks_execute; [apply grows_within_refl|].
  intros db db'. apply exec_insert_grows_within. by left.
Qed.

(** X3. Whatever the record and whatever the store, a call removes no
    table and adds none, changes no table's columns or key, and leaves no
    relation with fewer rows. The rows a relation held stay first and in
    order in every relation under Ignore, and in every relation but
    [results] under Update. *)
Theorem insert_data_never_deletes (data : gmap string pyval) (update_existing : bool)
    (db : database) :
  grows_within (append_only update_existing) db
    (stored (insert_data data update_existing db)).
Proof.
  destruct (insert_data data update_existing db) as [[[]|e] c] eqn:Hrun;
    [|apply insert_data_raise in Hrun as [_ Hdisk]; unfold stored; simpl;
      rewrite Hdisk; apply grows_within_refl].
  unfold stored. simpl. unfold insert_data in Hrun.
  set (primary := if update_existing then _ else _) in Hrun.
  set (strict := append_only update_existing).
  assert (tracks (grows_within strict) primary) as Hprimary.
  { subst primary. destruct update_existing;
      (apply tracks_bind; [apply grows_within_trans|apply tracks_lift, grows_within_refl|]);
      intros vals; (apply tracks_execute; [apply grows_within_refl|]);
      intros d d'; apply exec_insert_grows_within; [right|left]; done. }
  unfold Eff.bind at 1 in Hrun. pose proof (Hprimary (connect db)) as H1.
  destruct (primary (connect db)) as [[[]|e1] c1]; [|done].
  unfold Eff.bind at 1 in Hrun.
  pose proof (tracks_insert_children strict data "keywords" "keywords" keywords_columns c1)
    as H2.
  destruct (insert_children _ _ _ _ c1) as [[[]|e2] c2]; [|done].
  unfold Eff.bind at 1 in Hrun.
  pose proof (tracks_insert_children strict data "categories" "categories"
                categories_columns c2) as H3.
  destruct (insert_children _ _ _ _ c2) as [[[]|e3] c3]; [|done].
  injection Hrun as <-. simpl in *.
  eapply grows_within_trans; [exact H1|].
  eapply grows_within_trans; [exact H2|exact H3].
Qed.

(** ** Policies and rows *)

(** X4. The policy decides about the primary row of the incoming [uid]
    and about nothing else. On an initialised store and for a complete
    record, both policies add the same child rows; both leave the primary
    rows of every other [uid] as they were; and when no stored row has the
    incoming [uid] (or the [uid] is [None]) both leave the same store. *)
Theorem insert_data_policy_scope (data : gmap string pyval) (db : database) :
  schema_ok db → complete data = true →
  let updated := stored (insert_data data true db) in
  let ignored := stored (insert_data data false db) in
  rows_of "keywords" updated = rows_of "keywords" ignored ∧
  rows_of "categories" updated = rows_of "categories" ignored ∧
  (∀ u, data !! "uid" = Some (PyStr u) →
     without_uid u (rows_of "results" updated) = without_uid u (rows_of "results" db) ∧
     without_uid u (rows_of "results" ignored) = without_uid u (rows_of "results" db)) ∧
  (get data "uid" ∉ map uid_of (rows_of "results" db) ∨ get data "uid" = PyNone →
     updated = ignored).
Proof.
  intros Hok Hc updated ignored. subst updated ignored.
  rewrite !(insert_data_run data _ db Hok Hc). unfold stored. simpl.
  rewrite !written_keywords, !written_categories, !written_results.
  split_and!; [done..| |].
  - intros u Hu.
    assert (uid_of (row_of data) = PyStr u) as Huid
      by (rewrite uid_of_row_of; unfold get; by rewrite Hu).
    by rewrite !(put_row_without_uid _ _ _ u Huid).
  - intros Hfresh. unfold written. do 3 f_equal. unfold put_row.
    destruct (existsb _ _) eqn:Hex; [|done]. exfalso.
    apply existsb_exists in Hex as (r & Hin & Hsame).
    apply same_key_eq in Hsame as (u & Hnew & Hold).
    rewrite uid_of_row_of in Hnew.
    destruct Hfresh as [Hfresh|Hnone]; [|congruence].
    apply Hfresh. rewrite Hnew, <- Hold. apply elem_of_map. exists r.
    split; [done|by apply list_elem_of_In].
Qed.

Lemma insert_data_policy_scope_witness :
  stored (insert_data sample_other true populated)
  = stored (insert_data sample_other false populated).
Proof.
  refine (proj2 (proj2 (proj2 (insert_data_policy_scope sample_other populated _ _))) _).
  - schema_ok_closed populated.
  - by vm_compute.
  - left. by_evaluation.
Defined.

Lemma row_get_map (f : string → pyval) : ∀ cols k,
  k ∈ cols → row_get cols k (map f cols) = f k.
Proof.
  unfold row_get. induction cols as [|c cols IH]; intros k Hk.
  - by apply elem_of_nil in Hk.
  - cbn [column_index]. destruct (bool_decide (k = c)) eqn:Hkc.
    + by apply bool_decide_eq_true_1 in Hkc as ->.
    + apply bool_decide_eq_false_1 in Hkc. apply elem_of_cons in Hk as [?|Hk]; [done|].
      specialize (IH k Hk). destruct (column_index k cols) as [i|]; simpl in *; [done|].
      done.
Qed.

Lemma with_uid_absent u rs : PyStr u ∉ map uid_of rs → with_uid u rs = [].
Proof.
  unfold with_uid. induction rs as [|r rs IH]; intros Habs; [done|].
  rewrite map_cons in Habs. apply not_elem_of_cons in Habs as [Hr Hrs].
  rewrite filter_cons, decide_False by (by intros ?). by apply IH.
Qed.

(** X5. What is written can be read back by column. On an initialised
    store, after a complete record with a string [uid] is written under
    Update, the one primary row of that [uid] holds [data[k]] in column [k],
    for each of the sixteen columns; under Ignore the same holds when the
    [uid] was not stored before. *)
Theorem insert_data_read_back (data : gmap string pyval) (update_existing : bool)
    (db : database) (u : string) :
  schema_ok db → complete data = true → data !! "uid" = Some (PyStr u) →
  update_existing = true ∨ PyStr u ∉ map uid_of (rows_of "results" db) →
  ∃ r, with_uid u (rows_of "results" (stored (insert_data data update_existing db))) = [r] ∧
       ∀ k, k ∈ results_columns → Some (row_get results_columns k r) = data !! k.
Proof.
  intros Hok Hc Hu Hmode.
  assert (uid_of (row_of data) = PyStr u) as Huid
    by (rewrite uid_of_row_of; unfold get; by rewrite Hu).
  exists (row_of data). split.
  - rewrite (insert_data_run data update_existing db Hok Hc). unfold stored. simpl.
    rewrite written_results.
    destruct Hok as (rs & ks & cs & Hrs & _ & _ & _ & Hnd).
    unfold rows_of in *. rewrite Hrs in *. simpl in *.
    destruct Hmode as [->|Hfresh].
    + by apply put_row_update_with_uid.
    + rewrite (put_row_fresh _ _ _ u Huid Hfresh).
      unfold with_uid. rewrite filter_app. fold (with_uid u rs).
      rewrite (with_uid_absent u rs Hfresh), filter_cons, decide_True by done.
      done.
  - intros k Hk. unfold row_of. rewrite row_get_map by done. unfold get.
    unfold complete in Hc. rewrite forallb_forall in Hc.
    apply list_elem_of_In, Hc, (bool_decide_eq_true_1 _) in Hk as [v Hv]. by rewrite Hv.
Qed.

Lemma insert_data_read_back_witness :
  ∃ r, with_uid "2021onca123"
         (rows_of "results" (stored (insert_data sample_again true populated))) = [r] ∧
       ∀ k, k ∈ results_columns → Some (row_get results_columns k r) = sample_again !! k.
Proof.
  refine (insert_data_read_back sample_again true populated "2021onca123" _ _ _ _).
  - schema_ok_closed populated.
  - by vm_compute.
  - by vm_compute.
  - by left.
Defined.

(** ** Failing statements *)

(** X6. A relation that was never created makes the statement on it fail
    with [OperationalError], and nothing of the call reaches the file. With
    no [results] relation the primary insert fails. With [results] in place
    but no [keywords] relation, a record carrying keywords fails on the
    first keyword: the primary row is in the connection's view by then, but
    it is not committed. *)
Theorem insert_data_missing_relation (data : gmap string pyval)
    (update_existing : bool) (db : database) :
  complete data = true →
  (db !! "results" = None →
     insert_data data update_existing db
     = (Raise (OperationalError "no such table: results"), connect db)) ∧
  (∀ rs, db !! "results" = Some (Table results_columns (Some "uid") rs) →
     Forall (λ r, length r = length results_columns) rs →
     db !! "keywords" = None → truthy (get data "keywords") = true →
     insert_data data update_existing db
     = (Raise (OperationalError "no such table: keywords"),
        Conn db (<["results" := Table results_columns (Some "uid")
                                  (put_row update_existing rs (row_of data))]> db) true) ∧
     stored (insert_data data update_existing db) = db).
Proof.
  intros Hc. split.
  - intros Hnone. unfold insert_data.
    destruct update_existing; unfold Eff.bind, Eff.lift, execute;
      rewrite (subscripts_present _ _ Hc); simpl; by rewrite Hnone.
  - intros rs Hrs Hwidth Hkw Htruthy.
    assert (insert_data data update_existing db
            = (Raise (OperationalError "no such table: keywords"),
               Conn db (<["results" := Table results_columns (Some "uid")
                                         (put_row update_existing rs (row_of data))]> db) true))
      as Hrun; [|by rewrite Hrun].
    pose proof (complete_uid _ Hc) as [uid Huid].
    unfold insert_data. unfold Eff.bind at 1.
    assert ((if update_existing
             then let* vals := Eff.lift (subscripts data results_columns) in
                  execute (Insert (DoUpdate "uid" set_columns) "results" results_columns vals)
             else let* vals := Eff.lift (subscripts data results_columns) in
                  execute (Insert OrIgnore "results" results_columns vals)) (connect db)
            = (Return tt, Conn db (<["results" := Table results_columns (Some "uid")
                                        (put_row update_existing rs (row_of data))]> db) true)) as ->.
    { pose proof (exec_insert_results db rs (row_of data) update_existing Hrs Hwidth
                    (row_of_length data)) as Hexec.
      destruct update_existing; unfold Eff.bind, Eff.lift, execute;
        rewrite (subscripts_present _ _ Hc); fold (row_of data);
        simpl view; by rewrite Hexec. }
    unfold Eff.bind at 1. unfold insert_children at 1. rewrite Htruthy.
    unfold get in Htruthy. destruct (data !! "keywords") as [[|s]|] eqn:Hfield; try done.
    unfold Eff.bind at 1, Eff.lift at 1, subscript at 1. rewrite Hfield.
    unfold Eff.bind at 1, Eff.lift at 1. cbn [split_method]. unfold split, delimiter.
    cbv iota.
    destruct (split_scan " — " 0 EmptyString s) as [|item items] eqn:Hitems;
      [by apply split_scan_nonempty in Hitems|].
    cbn [Eff.for_each]. unfold Eff.bind at 1, Eff.bind at 1, Eff.lift at 1, subscript.
    rewrite Huid. unfold execute, exec. cbn [view].
    rewrite lookup_insert_ne by done. by rewrite Hkw.
Qed.

Lemma insert_data_missing_relation_witness :
  stored (insert_data sample_other false without_keywords) = without_keywords.
Proof.
  refine (proj2 (proj2 (insert_data_missing_relation sample_other false without_keywords _)
                   (rows_of "results" without_keywords) _ _ _ _)).
  - by vm_compute.
  - by vm_compute.
  - by_evaluation.
  - by vm_compute.
  - by vm_compute.
Defined.

(** X7. Under Ignore the first write wins. On an initialised store, after
    a complete record [A] and then a complete record [B] with the same
    string [uid] are written under Ignore, the primary relation is what it
    was after [A]; if the [uid] was not stored before, its one row is [A]'s
    tuple, whatever [B] holds. *)
Theorem insert_data_ignore_first_wins (A B : gmap string pyval) (db : database)
    (u : string) :
  schema_ok db → complete A = true → complete B = true →
  A !! "uid" = Some (PyStr u) → B !! "uid" = Some (PyStr u) →
  let first := stored (insert_data A false db) in
  let second := stored (insert_data B false first) in
  rows_of "results" second = rows_of "results" first ∧
  (PyStr u ∉ map uid_of (rows_of "results" db) →
     with_uid u (rows_of "results" second) = [row_of A]).
Proof.
  intros Hok HA HB HuA HuB first second.
  assert (uid_of (row_of A) = PyStr u) as HaU
    by (rewrite uid_of_row_of; unfold get; by rewrite HuA).
  assert (uid_of (row_of B) = PyStr u) as HbU
    by (rewrite uid_of_row_of; unfold get; by rewrite HuB).
  pose proof (schema_ok_written A false db Hok) as Hok1.
  subst second first.
  rewrite (insert_data_run A false db Hok HA). unfold stored. simpl snd. simpl disk.
  rewrite (insert_data_run B false _ Hok1 HB). simpl. rewrite !written_results.
  assert (put_row false (put_row false (rows_of "results" db) (row_of A)) (row_of B)
          = put_row false (rows_of "results" db) (row_of A)) as ->.
  { apply (put_row_ignore_present _ _ u HbU). by apply put_row_member. }
  split; [done|]. intros Hfresh.
  rewrite (put_row_fresh _ _ _ u HaU Hfresh).
  unfold with_uid. rewrite filter_app. fold (with_uid u (rows_of "results" db)).
  by rewrite (with_uid_absent u _ Hfresh), filter_cons, decide_True.
Qed.

Lemma insert_data_ignore_first_wins_witness :
  with_uid "2021onca123"
    (rows_of "results"
       (stored (insert_data sample_again false (stored (insert_data sample false initialised)))))
  = [row_of sample].
Proof.
  refine (proj2 (insert_data_ignore_first_wins sample sample_again initialised
                   "2021onca123" _ _ _ _ _) _).
  - schema_ok_closed initialised.
  - by vm_compute.
  - by vm_compute.
  - by vm_compute.
  - by vm_compute.
  - by_evaluation.
Defined.

(** ** Invariants of the store *)

(** X8. In every store the module produces, whatever the records and
    policies of the calls that led to it, the three relations exist as
    declared, every primary row has its sixteen values, and no two primary
    rows carry the same [uid] string. *)
Theorem reachable_invariant (db : database) :
  reachable db →
  tbl_columns <$> db !! "results" = Some results_columns ∧
  tbl_key <$> db !! "results" = Some (Some "uid") ∧
  tbl_columns <$> db !! "keywords" = Some keywords_columns ∧
  tbl_columns <$> db !! "categories" = Some categories_columns ∧
  Forall (λ r, length r = 16%nat) (rows_of "results" db) ∧
  ∀ u, (length (with_uid u (rows_of "results" db)) ≤ 1)%nat.
Proof.
  intros (rs & ks & cs & Hrs & Hks & Hcs & Hwidth & Hnd)%reachable_schema_ok.
  unfold rows_of. rewrite Hrs, Hks, Hcs. simpl.
  split_and!; [done..|]. intros u. by apply with_uid_unique.
Qed.

Lemma reachable_invariant_witness :
  Forall (λ r, length r = 16%nat)
    (rows_of "results" (stored (insert_data sample_other true populated))) ∧
  ∀ u, (length (with_uid u (rows_of "results"
                  (stored (insert_data sample_other true populated)))) ≤ 1)%nat.
Proof.
  refine (proj2 (proj2 (proj2 (proj2
    (reachable_invariant (stored (insert_data sample_other true populated)) _))))).
  apply reach_insert, reach_insert, reach_create_first.
Defined.

(** X9. Schema initialisation touches the three relations only, and only
    when they are missing: a missing one is created empty with its declared
    columns ([uid] the key of [results], no key on [keywords] and
    [categories]); a table already in the store, one of the three
    relations included, is left exactly as it is, declaration and rows;
    and a second call right after the first changes nothing. *)
Theorem create_citation_database_creates (db : database) :
  let db' := stored (create_citation_database db) in
  (∀ name, name ∉ ["results"; "keywords"; "categories"] → db' !! name = db !! name) ∧
  (∀ name t, db !! name = Some t → db' !! name = Some t) ∧
  (db !! "results" = None →
     db' !! "results" = Some (Table results_columns (Some "uid") [])) ∧
  (db !! "keywords" = None →
     db' !! "keywords" = Some (Table keywords_columns None [])) ∧
  (db !! "categories" = None →
     db' !! "categories" = Some (Table categories_columns None [])) ∧
  stored (create_citation_database db') = db'.
Proof.
  intros db'. subst db'. rewrite !create_citation_database_run. unfold stored. simpl.
  rewrite ensured_idempotent. split_and!; [|apply ensured_keeps| | | |done].
  - intros name Hname. rewrite !not_elem_of_cons in Hname.
    destruct Hname as (H1 & H2 & H3 & _). unfold ensured, ensure.
    repeat (match goal with
            | |- context [match ?m !! ?k with _ => _ end] => destruct (m !! k) eqn:?
            end); rewrite ?lookup_insert_ne by done; done.
  - intros Hnone. unfold ensured.
    do 2 (apply ensure_keeps). unfold ensure. rewrite Hnone. apply lookup_insert_eq.
  - intros Hnone. unfold ensured. apply ensure_keeps.
    unfold ensure at 1.
    assert (ensure "results" results_columns (Some "uid") db !! "keywords" = None) as ->.
    { unfold ensure. destruct (db !! "results"); [done|]. by rewrite lookup_insert_ne. }
    apply lookup_insert_eq.
  - intros Hnone. unfold ensured. unfold ensure at 1.
    assert (ensure "keywords" keywords_columns None
              (ensure "results" results_columns (Some "uid") db) !! "categories" = None) as ->.
    { unfold ensure. destruct (db !! "results"), (_ !! "keywords");
        rewrite ?lookup_insert_ne by done; done. }
    apply lookup_insert_eq.
Qed.

(** X9 on a store that has lost its [keywords] relation: the relation is
    created empty, and [results] keeps its declaration and its row. *)
Lemma create_citation_database_creates_witness :
  stored (create_citation_database without_keywords) !! "keywords"
  = Some (Table keywords_columns None []) ∧
  stored (create_citation_database without_keywords) !! "results"
  = Some (Table results_columns (Some "uid") [row_of sample]).
Proof.
  split.
  - refine (proj1 (proj2 (proj2 (proj2
      (create_citation_database_creates without_keywords)))) _).
    by vm_compute.
  - refine (proj1 (proj2
      (create_citation_database_creates without_keywords)) "results" _ _).
    by vm_compute.
Defined.

(** ** Further properties of [check_url] *)

(** X10. [check_url] swallows request exceptions and nothing else. If it
    raises, the exception is the one the GET raised and it is not a
    [requests.RequestException]; every request exception of the GET gives
    [None]; and a returned value is the url or [None]. *)
Theorem check_url_outcomes (E : env) (url : string) :
  (∀ e, fst (check_url E url []) = Raise e →
     is_request_exception e = false ∧ http_get E url = Raise e) ∧
  (∀ e, http_get E url = Raise e →
     fst (check_url E url [])
     = if is_request_exception e then Return PyNone else Raise e) ∧
  (∀ v, fst (check_url E url []) = Return v → v = PyStr url ∨ v = PyNone).
Proof.
  unfold check_url, try_except_request, requests_get, Eff.bind, emit, Eff.modify,
    Eff.lift, Eff.ret. simpl.
  destruct (http_get E url) as [resp|e0].
  - destruct (status_code resp =? 200)%Z; simpl; split_and!; try done;
      intros v [= <-]; auto.
  - destruct (is_request_exception e0) eqn:He; simpl; split_and!; try done.
    + intros e [= ->]. by rewrite He.
    + intros v [= <-]. auto.
    + intros e [= <-]. done.
    + intros e [= ->]. by rewrite He.
Qed.

Lemma check_url_outcomes_witness :
  fst (check_url (raising (OtherError "KeyboardInterrupt")) "https://canlii.ca/t/x" [])
  = Raise (OtherError "KeyboardInterrupt").
Proof.
  refine (proj1 (proj2 (check_url_outcomes (raising (OtherError "KeyboardInterrupt"))
                          "https://canlii.ca/t/x")) (OtherError "KeyboardInterrupt") _).
  reflexivity.
Defined.

(** ** Further properties of [canlii_api_call] *)

Section canlii_api_call_more.

Variable E : env.
Variables case_id database_id legislation_id language : pyval.

Local Abbreviation url' := (endpoint case_id database_id legislation_id language).
Local Abbreviation call' := (canlii_api_call E case_id database_id legislation_id language).
Local Abbreviation blocks' := (fetch_all E case_id database_id legislation_id language).
Local Abbreviation answer' := (answer E case_id database_id legislation_id language).

Lemma fetch_answer key wanted f info trace :
  wanted f = true →
  fetch E case_id database_id legislation_id language key wanted f info trace
  = (answer' key f info, trace ++ [Get (url' f key)]).
Proof. intros Hw. by rewrite fetch_run. Qed.

(** The blocks stop at the first wanted facet whose answer is an exception. *)
Lemma fetch_all_stops key wanted : ∀ fs info trace e,
  fst (blocks' key wanted fs info trace) = Raise e →
  ∃ earlier f later info',
    List.filter wanted fs = earlier ++ f :: later ∧
    snd (blocks' key wanted fs info trace)
    = trace ++ map (λ f, Get (url' f key)) (earlier ++ [f]) ∧
    answer' key f info' = Raise e.
Proof.
  induction fs as [|f fs IH]; intros info trace e Hraise; [done|].
  cbn [fetch_all List.filter] in *. unfold Eff.bind in *.
  destruct (wanted f) eqn:Hw.
  - rewrite (fetch_answer key wanted f info trace Hw) in *.
    destruct (answer' key f info) as [info1|e1] eqn:Hans.
    + destruct (IH info1 _ e Hraise) as (earlier & g & later & info' & Hfilter & Hsnd & Hg).
      exists (f :: earlier), g, later, info'. rewrite Hfilter, Hsnd, <- app_assoc.
      by split_and!.
    + simpl in Hraise. injection Hraise as ->.
      exists [], f, (List.filter wanted fs), info. by split_and!.
  - rewrite (fetch_skip _ _ _ _ _ _ _ _ info trace Hw) in *. by apply IH.
Qed.

(** X11. The call is fail-fast. When it raises after the key is resolved,
    the exception is the one met in the block of some wanted facet [f] (by
    the request, the decoding or a subscript); requests were issued for the
    wanted facets up to [f] in block order, one each, and for none of the
    wanted facets after it. *)
Theorem canlii_api_call_fail_fast (dm lm cc cg db : bool) (key : string) (e : exn) :
  fst (resolve_api_key E []) = Return key →
  fst (call' dm lm cc cg db []) = Raise e →
  ∃ earlier f later info,
    List.filter (flags dm lm cc cg db) facets = earlier ++ f :: later ∧
    requests (snd (call' dm lm cc cg db [])) = map (λ f, url' f key) (earlier ++ [f]) ∧
    answer' key f info = Raise e.
Proof.
  intros Hkey Hraise.
  pose proof (canlii_api_call_run E case_id database_id legislation_id language
                dm lm cc cg db) as Hrun.
  destruct (resolve_api_key_trace E []) as (asked & Hsnd & Hreq & _ & _).
  destruct (resolve_api_key E []) as [[key'|e'] t0]; [|done].
  simpl in Hkey, Hsnd. injection Hkey as ->. subst t0. rewrite Hrun in *.
  destruct (fetch_all_stops key _ facets ∅ asked e Hraise)
    as (earlier & f & later & info & Hfilter & Htrace & Hans).
  exists earlier, f, later, info. split_and!; [done| |done].
  rewrite Htrace, requests_app, Hreq. simpl.
  rewrite <- (requests_gets (map _ (earlier ++ [f]))). by rewrite map_map.
Qed.

(** X12. No request goes out without a key. If credential resolution
    raises, the call raises the same exception and issues no request; in
    particular, with no key in the environment and the console at end of
    input, the call raises [EOFError] after printing the prompt. *)
Theorem canlii_api_call_without_key (dm lm cc cg db : bool) :
  (∀ e, fst (resolve_api_key E []) = Raise e →
     fst (call' dm lm cc cg db []) = Raise e ∧
     requests (snd (call' dm lm cc cg db [])) = []) ∧
  (getenv E "CANLII_API_KEY" = None → stdin_line E = None →
     call' dm lm cc cg db [] = (Raise EOFError, prompt)).
Proof.
  pose proof (canlii_api_call_run E case_id database_id legislation_id language
                dm lm cc cg db) as Hrun.
  split.
  - intros e He.
    destruct (resolve_api_key_trace E []) as (asked & Hsnd & Hreq & _ & _).
    destruct (resolve_api_key E []) as [[key|e'] t0]; [done|].
    simpl in He, Hsnd. injection He as ->. subst t0. by rewrite Hrun.
  - intros Henv Hin. rewrite (resolve_api_key_prompt E [] Henv), Hin in Hrun. done.
Qed.

Lemma endpoint_shape f key :
  ∃ path, url' f key = "https://api.canlii.org/v1/" +:+ path +:+ "api_key=" +:+ key.
Proof.
  destruct f; unfold endpoint.
  - exists ("caseBrowse/" +:+ format language +:+ "/" +:+ format database_id +:+ "/"
            +:+ format case_id +:+ "/?").
    by rewrite !append_assoc.
  - exists ("caseCitator/" +:+ format language +:+ "/" +:+ format database_id +:+ "/"
            +:+ format case_id +:+ "/citedCases?").
    by rewrite !append_assoc.
  - exists ("caseCitator/" +:+ format language +:+ "/" +:+ format database_id +:+ "/"
            +:+ format case_id +:+ "/citingCases?").
    by rewrite !append_assoc.
  - exists ("legislationBrowse/" +:+ format language +:+ "/" +:+ format database_id +:+ "/"
            +:+ format legislation_id +:+ "/?").
    by rewrite !append_assoc.
  - exists ("caseBrowse/" +:+ format language +:+ "/?").
    by rewrite !append_assoc.
Qed.

(** X13. Every request of a call goes to the service's base URL and
    carries the resolved key as its last query parameter. *)
Theorem canlii_api_call_request_shape (dm lm cc cg db : bool) (u : string) :
  u ∈ requests (snd (call' dm lm cc cg db [])) →
  ∃ key path,
    fst (resolve_api_key E []) = Return key ∧
    u = "https://api.canlii.org/v1/" +:+ path +:+ "api_key=" +:+ key.
Proof.
  intros Hin.
  pose proof (canlii_api_call_requests E case_id database_id legislation_id language
                dm lm cc cg db) as Hreq.
  destruct (fst (resolve_api_key E [])) as [key|e].
  - destruct Hreq as (reached & Hreq & _). rewrite Hreq in Hin.
    apply elem_of_map in Hin as (f & -> & _).
    destruct (endpoint_shape f key) as [path Hpath]. by exists key, path.
  - destruct Hreq as [Hnone _]. rewrite Hnone in Hin. by apply elem_of_nil in Hin.
Qed.

End canlii_api_call_more.

Lemma canlii_api_call_fail_fast_witness :
  ∃ earlier f later info,
    List.filter (flags true false true true false) facets = earlier ++ f :: later ∧
    requests (snd (canlii_api_call (serving 200 sample_metadata_short)
                     (PyStr "2021onca123") (PyStr "onca") PyNone (PyStr "en")
                     true false true true false []))
    = map (λ f, endpoint (PyStr "2021onca123") (PyStr "onca") PyNone (PyStr "en") f "k")
          (earlier ++ [f]) ∧
    answer (serving 200 sample_metadata_short)
      (PyStr "2021onca123") (PyStr "onca") PyNone (PyStr "en") "k" f info
    = Raise (KeyError "docketNumber").
Proof.
  refine (canlii_api_call_fail_fast (serving 200 sample_metadata_short)
            (PyStr "2021onca123") (PyStr "onca") PyNone (PyStr "en")
            true false true true false "k" (KeyError "docketNumber") _ _); reflexivity.
Defined.

Example canlii_api_call_short_metadata :
  canlii_api_call (serving 200 sample_metadata_short)
    (PyStr "2021onca123") (PyStr "onca") PyNone (PyStr "en")
    true false true true false []
  = (Raise (KeyError "docketNumber"),
     [Get "https://api.canlii.org/v1/caseBrowse/en/onca/2021onca123/?api_key=k"]).
Proof. reflexivity. Qed.

Lemma canlii_api_call_without_key_witness :
  canlii_api_call unattended (PyStr "2021onca123") (PyStr "onca") PyNone (PyStr "en")
    true false false false false []
  = (Raise EOFError, prompt).
Proof.
  refine (proj2 (canlii_api_call_without_key unattended
                   (PyStr "2021onca123") (PyStr "onca") PyNone (PyStr "en")
                   true false false false false) _ _); reflexivity.
Defined.

Lemma canlii_api_call_request_shape_witness :
  ∃ key path,
    fst (resolve_api_key (serving 200 sample_metadata) []) = Return key ∧
    "https://api.canlii.org/v1/caseBrowse/en/onca/2021onca123/?api_key=k"
    = "https://api.canlii.org/v1/" +:+ path +:+ "api_key=" +:+ key.
Proof.
  refine (canlii_api_call_request_shape (serving 200 sample_metadata)
            (PyStr "2021onca123") (PyStr "onca") PyNone (PyStr "en")
            true false false false false _ _).
  by_evaluation.
Defined.

(** ** The shape of the responses *)

Lemma assign_missing ms m : ∀ before k after info,
  Forall (λ ks, returned (read (JObject ms) ks.2)) before →
  member m ms = None →
  assign (JObject ms) (before ++ (k, Some m) :: after) info = Raise (KeyError m).
Proof.
  induction before as [|[k0 s0] before IH]; intros k after info Hbefore Hm.
  - simpl. by rewrite Hm.
  - apply Forall_cons in Hbefore as [[v Hv] Hbefore]. simpl in *. rewrite Hv.
    by apply IH.
Qed.

Lemma fetch_all_filter E case_id database_id legislation_id language key wanted :
  ∀ fs info trace,
    fetch_all E case_id database_id legislation_id language key wanted fs info trace
    = fetch_all E case_id database_id legislation_id language key wanted
        (List.filter wanted fs) info trace.
Proof.
  induction fs as [|f fs IH]; intros info trace; [done|].
  cbn [List.filter]. destruct (wanted f) eqn:Hw.
  - cbn [fetch_all]. unfold Eff.bind.
    destruct (fetch _ _ _ _ _ _ _ f info trace) as [[info1|e] t1]; [apply IH|done].
  - cbn [fetch_all]. unfold Eff.bind. rewrite fetch_skip by done. apply IH.
Qed.

Section canlii_api_call_shapes.

Variable E : env.
Variables case_id database_id legislation_id language : pyval.

Local Abbreviation url'' := (endpoint case_id database_id legislation_id language).
Local Abbreviation call'' := (canlii_api_call E case_id database_id legislation_id language).

(** The first wanted block decides when its answer is an exception. *)
Lemma canlii_api_call_first_block dm lm cc cg db key asked f later e :
  resolve_api_key E [] = (Return key, asked) →
  List.filter (flags dm lm cc cg db) facets = f :: later →
  answer E case_id database_id legislation_id language key f ∅ = Raise e →
  call'' dm lm cc cg db [] = (Raise e, asked ++ [Get (url'' f key)]).
Proof.
  intros Hkey Hfilter Hans.
  pose proof (canlii_api_call_run E case_id database_id legislation_id language
                dm lm cc cg db) as Hrun.
  rewrite Hkey in Hrun. rewrite Hrun, fetch_all_filter, Hfilter.
  cbn [fetch_all]. unfold Eff.bind.
  assert (flags dm lm cc cg db f = true) as Hw.
  { assert (f ∈ List.filter (flags dm lm cc cg db) facets) as Hin
      by (rewrite Hfilter; by left).
    by apply elem_of_filter_bool in Hin as [_ ?]. }
  rewrite fetch_run by done. fold (url'' f key).
  unfold answer in Hans. by rewrite Hans.
Qed.

(** X14. The decoded response of the decision (or legislation) facet has
    to be an object with every member the block reads. When that facet is
    the first wanted one and its response decodes to an object lacking a
    member, the call raises [KeyError] for the first member missing in
    reading order; when it decodes to anything but an object, the call
    raises [TypeError]. Either way the request of that facet is the only
    one issued. *)
Theorem canlii_api_call_response_shape (dm lm cc cg db : bool) (key : string)
    (asked : list event) (f : facet) (later : list facet) (resp : response) (j : json) :
  resolve_api_key E [] = (Return key, asked) →
  List.filter (flags dm lm cc cg db) facets = f :: later →
  f = DecisionMetadata ∨ f = LegislationMetadata →
  http_get E (url'' f key) = Return resp → body resp = Some j →
  (∀ ms before k m after,
     j = JObject ms → sources f = before ++ (k, Some m) :: after →
     Forall (λ ks, returned (read j ks.2)) before → member m ms = None →
     call'' dm lm cc cg db [] = (Raise (KeyError m), asked ++ [Get (url'' f key)])) ∧
  ((∀ ms, j ≠ JObject ms) →
     call'' dm lm cc cg db [] = (Raise TypeError, asked ++ [Get (url'' f key)])).
Proof.
  intros Hkey Hfilter Hf Hget Hbody. split.
  - intros ms before k m after -> Hsrc Hbefore Hm.
    apply (canlii_api_call_first_block _ _ _ _ _ key asked f later); [done..|].
    unfold answer. fold (url'' f key). rewrite Hget. unfold json_of. rewrite Hbody, Hsrc.
    by apply assign_missing.
  - intros Hshape.
    apply (canlii_api_call_first_block _ _ _ _ _ key asked f later); [done..|].
    unfold answer. fold (url'' f key). rewrite Hget. unfold json_of. rewrite Hbody.
    destruct Hf as [-> | ->]; destruct j; try done; by destruct (Hshape members).
Qed.

Lemma fetch_all_verbatim key wanted : ∀ fs info trace,
  (∀ f, f ∈ fs → wanted f = true →
     (∃ k, sources f = [(k, None)]) ∧
     ∃ resp j, http_get E (url'' f key) = Return resp ∧ body resp = Some j) →
  returned (fst (fetch_all E case_id database_id legislation_id language key wanted
                   fs info trace)).
Proof.
  induction fs as [|f fs IH]; intros info trace Hall; [by exists info|].
  cbn [fetch_all]. unfold Eff.bind. destruct (wanted f) eqn:Hw.
  - rewrite fetch_run by done. fold (url'' f key).
    destruct (Hall f ltac:(by left) Hw) as [[k Hk] (resp & j & Hget & Hbody)].
    rewrite Hget. unfold json_of. rewrite Hbody, Hk. simpl.
    apply IH. intros g Hg. apply Hall. by right.
  - rewrite fetch_skip by done. apply IH. intros g Hg. apply Hall. by right.
Qed.

(** X15. The cited-cases, citing-cases and database-listing facets take
    any document. With the decision and legislation facets not asked for, a
    call whose key resolves and whose wanted requests are each answered with
    a body that decodes (to whatever JSON value, under whatever status
    code) returns a dictionary. *)
Theorem canlii_api_call_verbatim (cc cg db : bool) (key : string) :
  fst (resolve_api_key E []) = Return key →
  (∀ f, flags false false cc cg db f = true →
     ∃ resp j, http_get E (url'' f key) = Return resp ∧ body resp = Some j) →
  returned (fst (call'' false false cc cg db [])).
Proof.
  intros Hkey Hanswers.
  pose proof (canlii_api_call_run E case_id database_id legislation_id language
                false false cc cg db) as Hrun.
  destruct (resolve_api_key E []) as [[key'|e] asked]; [|done].
  simpl in Hkey. injection Hkey as ->. rewrite Hrun.
  apply fetch_all_verbatim. intros f _ Hw. split; [|by apply Hanswers].
  destruct f; simpl in Hw; try done; eauto.
Qed.

End canlii_api_call_shapes.

Lemma canlii_api_call_response_shape_witness :
  canlii_api_call (serving 200 sample_metadata_short)
    (PyStr "2021onca123") (PyStr "onca") PyNone (PyStr "en")
    true false true false false []
  = (Raise (KeyError "docketNumber"),
     [Get "https://api.canlii.org/v1/caseBrowse/en/onca/2021onca123/?api_key=k"]).
Proof.
  refine (proj1 (canlii_api_call_response_shape (serving 200 sample_metadata_short)
                   (PyStr "2021onca123") (PyStr "onca") PyNone (PyStr "en")
                   true false true false false "k" [] DecisionMetadata [CasesCited]
                   (Response 200 (Some sample_metadata_short)) sample_metadata_short
                   _ _ _ _ _)
            _ [("short_url", Some "url"); ("language", Some "language")]
            "docket_number" "docketNumber" _ _ _ _ _); try reflexivity.
  - by left.
  - repeat constructor; by eexists.
Defined.

Lemma canlii_api_call_verbatim_witness :
  returned (fst (canlii_api_call (serving 500 error_document)
                   (PyStr "2021onca123") (PyStr "onca") PyNone (PyStr "en")
                   false false true true true [])).
Proof.
  refine (canlii_api_call_verbatim (serving 500 error_document)
            (PyStr "2021onca123") (PyStr "onca") PyNone (PyStr "en")
            true true true "k" _ _).
  - reflexivity.
  - intros f _. by exists (Response 500 (Some error_document)), error_document.
Defined.

(** ** Parameters a call does not look at *)

Lemma fetch_all_same_urls E c d l lang c' d' l' lang' key wanted :
  (∀ f, wanted f = true → endpoint c d l lang f key = endpoint c' d' l' lang' f key) →
  ∀ fs info trace,
    fetch_all E c d l lang key wanted fs info trace
    = fetch_all E c' d' l' lang' key wanted fs info trace.
Proof.
  intros Hurl. induction fs as [|f fs IH]; intros info trace; [done|].
  cbn [fetch_all]. apply bind_ext; [|intros info1 t1; apply IH].
  intros t. unfold fetch. destruct (wanted f) eqn:Hw; [|done]. by rewrite (Hurl f Hw).
Qed.

(** X16. An identifier matters only to the facets that use it. A call
    without the legislation facet does the same whatever [legislation_id]
    is; a call without the three case facets does the same whatever
    [case_id] is; and a call for the database listing alone does the same
    whatever the three identifiers are. *)
Theorem canlii_api_call_unused_identifiers (E : env)
    (case_id database_id legislation_id language case_id' database_id'
       legislation_id' : pyval) (dm lm cc cg db : bool) (trace : list event) :
  (lm = false →
     canlii_api_call E case_id database_id legislation_id language dm lm cc cg db trace
     = canlii_api_call E case_id database_id legislation_id' language dm lm cc cg db trace) ∧
  (dm = false → cc = false → cg = false →
     canlii_api_call E case_id database_id legislation_id language dm lm cc cg db trace
     = canlii_api_call E case_id' database_id legislation_id language dm lm cc cg db trace) ∧
  (dm = false → cc = false → cg = false → lm = false →
     canlii_api_call E case_id database_id legislation_id language dm lm cc cg db trace
     = canlii_api_call E case_id' database_id' legislation_id' language dm lm cc cg db trace).
Proof.
  rewrite !canlii_api_call_blocks.
  split_and!; intros; subst; (apply bind_ext; [done|]); intros key t;
    apply fetch_all_same_urls; intros f Hw; destruct f; simpl in Hw; done.
Qed.

Lemma canlii_api_call_unused_identifiers_witness :
  canlii_api_call (serving 200 error_document)
    (PyStr "2021onca123") (PyStr "onca") PyNone (PyStr "en")
    false false false false true []
  = canlii_api_call (serving 200 error_document) PyNone PyNone (PyStr "rso-1990-c-c43")
      (PyStr "en") false false false false true [].
Proof.
  refine (proj2 (proj2 (canlii_api_call_unused_identifiers (serving 200 error_document)
                          (PyStr "2021onca123") (PyStr "onca") PyNone (PyStr "en")
                          PyNone PyNone (PyStr "rso-1990-c-c43")
                          false false false false true [])) _ _ _ _); reflexivity.
Defined.

(** ** Repeating and reordering writes *)

Lemma put_row_update_again rs new u :
  uid_of new = PyStr u →
  put_row true (put_row true rs new) new = put_row true rs new.
Proof.
  intros Hu. unfold put_row at 1.
  assert (existsb (λ old, same_key (uid_of new) (uid_of old)) (put_row true rs new) = true)
    as -> by (apply (conflict_iff _ _ u Hu); by apply put_row_member).
  rewrite <- (map_id (put_row true rs new)) at 2.
  apply map_ext_in. intros old Hin. destruct (same_key _ _) eqn:Hsame; [|done].
  apply same_key_eq in Hsame as (v & Hn & Ho). symmetry.
  apply (put_row_update_rows rs new u); [done|by apply list_elem_of_In|congruence].
Qed.

(** X17. The upsert is idempotent on the primary relation. On an
    initialised store, writing the same complete record (with a string
    [uid]) twice under Update leaves [results] after the second call
    exactly as after the first. *)
Theorem insert_data_update_idempotent (data : gmap string pyval) (db : database)
    (u : string) :
  schema_ok db → complete data = true → data !! "uid" = Some (PyStr u) →
  let first := stored (insert_data data true db) in
  let second := stored (insert_data data true first) in
  rows_of "results" second = rows_of "results" first.
Proof.
  intros Hok Hc Hu first second.
  assert (uid_of (row_of data) = PyStr u) as Huid
    by (rewrite uid_of_row_of; unfold get; by rewrite Hu).
  pose proof (schema_ok_written data true db Hok) as Hok1.
  subst second first.
  rewrite (insert_data_run data true db Hok Hc). unfold stored. simpl snd. simpl disk.
  rewrite (insert_data_run data true _ Hok1 Hc). simpl. rewrite !written_results.
  by apply (put_row_update_again _ _ u).
Qed.

Lemma insert_data_update_idempotent_witness :
  rows_of "results"
    (stored (insert_data sample_again true (stored (insert_data sample_again true populated))))
  = rows_of "results" (stored (insert_data sample_again true populated)).
Proof.
  refine (insert_data_update_idempotent sample_again populated "2021onca123" _ _ _).
  - schema_ok_closed populated.
  - by vm_compute.
  - by vm_compute.
Defined.

Lemma conflict_after_put_row (p : bool) rs a b ua ub :
  uid_of a = PyStr ua → uid_of b = PyStr ub → ua ≠ ub →
  existsb (λ old, same_key (uid_of b) (uid_of old)) (put_row p rs a)
  = existsb (λ old, same_key (uid_of b) (uid_of old)) rs.
Proof.
  intros Ha Hb Hne. apply eq_true_iff_eq. rewrite !(conflict_iff _ _ ub Hb).
  assert (∀ l, (∃ r, r ∈ l ∧ uid_of r = PyStr ub)
               ↔ ∃ r, r ∈ without_uid ua l ∧ uid_of r = PyStr ub) as Hiff.
  { intros l. split; intros (r & Hin & Hr); exists r; (split; [|done]).
    - apply list_elem_of_filter. split; [|done]. rewrite Hr. intros [= ?]. by subst.
    - by apply list_elem_of_filter in Hin as [_ ?]. }
  by rewrite (Hiff (put_row p rs a)), (Hiff rs), (put_row_without_uid _ _ _ ua Ha).
Qed.

Lemma replace_commute rs a b ua ub :
  uid_of a = PyStr ua → uid_of b = PyStr ub → ua ≠ ub →
  map (λ old, if same_key (uid_of b) (uid_of old) then b else old)
    (map (λ old, if same_key (uid_of a) (uid_of old) then a else old) rs)
  = map (λ old, if same_key (uid_of a) (uid_of old) then a else old)
      (map (λ old, if same_key (uid_of b) (uid_of old) then b else old) rs).
Proof.
  intros Ha Hb Hne. rewrite !map_map. apply map_ext. intros x.
  assert (same_key (uid_of b) (uid_of a) = false) as Hba
    by (rewrite Ha, Hb; simpl; apply bool_decide_eq_false_2; by intros ->).
  assert (same_key (uid_of a) (uid_of b) = false) as Hab
    by (rewrite Ha, Hb; simpl; by apply bool_decide_eq_false_2).
  destruct (same_key (uid_of a) (uid_of x)) eqn:Hax,
           (same_key (uid_of b) (uid_of x)) eqn:Hbx;
    rewrite ?Hba, ?Hab, ?Hax, ?Hbx; try done.
  apply same_key_eq in Hax as (v & Hv & Hx). apply same_key_eq in Hbx as (w & Hw & Hx').
  congruence.
Qed.

Lemma replace_other a b ua ub :
  uid_of a = PyStr ua → uid_of b = PyStr ub → ua ≠ ub →
  (if same_key (uid_of a) (uid_of b) then a else b) = b.
Proof.
  intros Ha Hb Hne. rewrite Ha, Hb. simpl. rewrite bool_decide_eq_false_2; [done|].
  by intros ->.
Qed.

(** The primary rows after two writes with different [uid]s, in either
    order and under any two policies, are the same up to order. *)
Lemma put_row_commute (pa pb : bool) rs a b ua ub :
  uid_of a = PyStr ua → uid_of b = PyStr ub → ua ≠ ub →
  put_row pb (put_row pa rs a) b ≡ₚ put_row pa (put_row pb rs b) a.
Proof.
  intros Ha Hb Hne.
  assert (ub ≠ ua) as Hne' by (by intros ->).
  unfold put_row at 1 3.
  rewrite (conflict_after_put_row pa rs a b ua ub Ha Hb Hne),
          (conflict_after_put_row pb rs b a ub ua Hb Ha Hne').
  unfold put_row.
  destruct (existsb (λ old, same_key (uid_of a) (uid_of old)) rs) eqn:Ca,
           (existsb (λ old, same_key (uid_of b) (uid_of old)) rs) eqn:Cb;
    destruct pa, pb;
    rewrite ?map_app; cbn [map];
    rewrite ?(replace_other a b ua ub Ha Hb Hne), ?(replace_other b a ub ua Hb Ha Hne');
    try reflexivity.
  - by rewrite (replace_commute rs a b ua ub).
  - rewrite <- !app_assoc. apply Permutation_app_head, perm_swap.
  - rewrite <- !app_assoc. apply Permutation_app_head, perm_swap.
  - rewrite <- !app_assoc. apply Permutation_app_head, perm_swap.
  - rewrite <- !app_assoc. apply Permutation_app_head, perm_swap.
Qed.

Lemma written_other data update_existing db name :
  name ∉ ["results"; "keywords"; "categories"] →
  rows_of name (written data update_existing db) = rows_of name db.
Proof.
  rewrite !not_elem_of_cons. intros (H1 & H2 & H3 & _).
  unfold written, rows_of at 1. by rewrite !lookup_insert_ne.
Qed.

(** X18. Writes for different cases do not interfere. On an initialised
    store, two complete records with different string [uid]s, each under
    its own policy, leave every relation with the same rows whichever is
    written first; only the order of the rows may differ. *)
Theorem insert_data_commute (A B : gmap string pyval) (pa pb : bool) (db : database)
    (ua ub : string) :
  schema_ok db → complete A = true → complete B = true →
  A !! "uid" = Some (PyStr ua) → B !! "uid" = Some (PyStr ub) → ua ≠ ub →
  ∀ name,
    rows_of name (stored (insert_data B pb (stored (insert_data A pa db))))
    ≡ₚ rows_of name (stored (insert_data A pa (stored (insert_data B pb db)))).
Proof.
  intros Hok HA HB HuA HuB Hne name.
  assert (uid_of (row_of A) = PyStr ua) as HaU
    by (rewrite uid_of_row_of; unfold get; by rewrite HuA).
  assert (uid_of (row_of B) = PyStr ub) as HbU
    by (rewrite uid_of_row_of; unfold get; by rewrite HuB).
  pose proof (schema_ok_written A pa db Hok) as HokA.
  pose proof (schema_ok_written B pb db Hok) as HokB.
  rewrite (insert_data_run A pa db Hok HA), (insert_data_run B pb db Hok HB).
  unfold stored. simpl snd. simpl disk.
  rewrite (insert_data_run B pb _ HokA HB), (insert_data_run A pa _ HokB HA). simpl.
  destruct (decide (name = "results")) as [->|Hr].
  { rewrite !written_results. by apply (put_row_commute pa pb _ _ _ ua ub). }
  destruct (decide (name = "keywords")) as [->|Hk].
  { rewrite !written_keywords, <- !app_assoc. apply Permutation_app_head, Permutation_app_comm. }
  destruct (decide (name = "categories")) as [->|Hc].
  { rewrite !written_categories, <- !app_assoc.
    apply Permutation_app_head, Permutation_app_comm. }
  rewrite !written_other; [done|..]; rewrite !not_elem_of_cons; split_and!; try done;
    apply not_elem_of_nil.
Qed.

Lemma insert_data_commute_witness :
  rows_of "results"
    (stored (insert_data sample_other false (stored (insert_data sample true initialised))))
  ≡ₚ rows_of "results"
       (stored (insert_data sample true (stored (insert_data sample_other false initialised)))).
Proof.
  refine (insert_data_commute sample sample_other true false initialised
            "2021onca123" "2020scc5" _ _ _ _ _ _ "results").
  - schema_ok_closed initialised.
  - by vm_compute.
  - by vm_compute.
  - by vm_compute.
  - by vm_compute.
  - by vm_compute.
Defined.
